(** * gocrypt: scrypt-derived keys for AES-256-GCM

  A shallow embedding of [gocrypt.go] (package [3dfosi/gocrypt]):
  [genSalt], [createHash], [Encrypt] and [Decrypt], and the four
  functions that wrap them in file reads and writes.

  The package is glue around three libraries.  They are not part of the
  repository, so the development takes them as follows.

  - [crypto/rand] with [io.ReadFull]: the entropy source is a field of the
    interface [Lib]; what one read copies and whether it reports an error
    is left open.
  - [golang.org/x/crypto/scrypt]: [scrypt.Key] is a field of [Lib]
    returning the pair [(dk, err)] as in Go; the only contract used is
    that an accepted derivation yields [keyLen] bytes.
  - [crypto/aes] and [crypto/cipher]: the key-size switch of
    [aes.NewCipher], the block-size test of [cipher.NewGCM], and the
    argument checks, tag comparison and output layout of GCM's [Seal] and
    [Open] are written out; counter-mode encryption and the GHASH tag are
    fields of [Lib], used through three contracts: counter mode keeps the
    length and undoes itself, the tag has 16 bytes.

  Go values are kept as the code has them: a [[]byte] may be [nil], a
  function returns its whole tuple (also next to a non-nil error), a slice
  expression out of range panics, and [log.Println] appends to the
  process log. *)

From Stdlib Require Import List ZArith Lia Bool String.
From Stdlib Require Import Strings.Byte.
Import ListNotations.

Local Open Scope Z_scope.

(** ** Go values *)

Definition bytes : Type := list byte.

(** A value of type [[]byte]: [None] is the [nil] slice. *)
Definition slice : Type := option bytes.

Definition nil_slice : slice := None.

Definition elems (s : slice) : bytes :=
match s with
| None => []
| Some b => b
end.

(** [len(s)] *)
Definition len (s : slice) : nat := List.length (elems s).

(** [make([]byte, n)]: a non-nil slice of [n] zero bytes. *)
Definition make (n : nat) : slice := Some (repeat x00 n).

(** A Go [string] is an immutable byte sequence; the conversions
  [string(b)] and [[]byte(s)] copy the bytes unchanged. *)
Definition gostring : Type := bytes.

Definition string_of_slice (b : slice) : gostring := elems b.

Definition slice_of_string (s : gostring) : slice := Some s.

(** The error values that reach the package.  The package defines no
    error of its own: what it returns is what a library gave it. *)
Inductive error : Type :=
| ErrReader (msg : string)     (* whatever the entropy source reports *)
| ErrScrypt (msg : string)     (* scrypt.Key rejecting its parameters *)
| KeySizeError (k : nat)       (* aes.KeySizeError *)
| ErrGCMBlockSize              (* cipher: NewGCM requires 128-bit block cipher *)
| ErrOpen.                     (* cipher: message authentication failed *)

(** Run-time panics. *)
Inductive panic : Type :=
| PanicSliceBounds             (* slice bounds out of range *)
| PanicNonceLength             (* crypto/cipher: incorrect nonce length given to GCM *)
| PanicMessageTooLarge.        (* crypto/cipher: message too large for GCM *)

(** A library constructor returning [(T, error)] with exactly one of the two
  set. *)
Inductive result (A : Type) : Type :=
| Ok (a : A)
| Err (e : error).
Arguments Ok {A} a.
Arguments Err {A} e.

Inductive outcome (A : Type) : Type :=
| Returns (a : A)
| Panics (p : panic).
Arguments Returns {A} a.
Arguments Panics {A} p.

(** ** crypto/aes and crypto/cipher: the parts that are plain control flow *)

Inductive aes_variant : Type := AES128 | AES192 | AES256.

Record Block : Type := mkBlock { block_key : bytes; block_variant : aes_variant }.

(** [aes.NewCipher]: the key length selects the variant, any other length is
  a [KeySizeError]. *)
Definition aes_NewCipher (key : slice) : result Block :=
match len key with
| 16%nat => Ok (mkBlock (elems key) AES128)
| 24%nat => Ok (mkBlock (elems key) AES192)
| 32%nat => Ok (mkBlock (elems key) AES256)
| k => Err (KeySizeError k)
end.

Definition BlockSize (b : Block) : nat := 16.

Definition gcmStandardNonceSize : nat := 12.
Definition gcmTagSize : nat := 16.

Record AEAD : Type := mkGCM { gcm_cipher : Block; gcm_nonceSize : nat; gcm_tagSize : nat }.

(** [cipher.NewGCM] *)
Definition cipher_NewGCM (b : Block) : result AEAD :=
if Nat.eqb (BlockSize b) 16
then Ok (mkGCM b gcmStandardNonceSize gcmTagSize)
else Err ErrGCMBlockSize.

Definition NonceSize (g : AEAD) : nat := gcm_nonceSize g.

(** The largest plaintext GCM accepts: [((1<<32)-2) * BlockSize] bytes. *)
Definition gcm_max_plaintext (g : AEAD) : Z :=
(2 ^ 32 - 2) * Z.of_nat (BlockSize (gcm_cipher g)).

(** [sliceForAppend(in, n)] followed by writing [out] into the tail: the
  head is [in] extended by [out].  Extending [nil] by nothing is [nil]. *)
Definition sliceForAppend (dst : slice) (out : bytes) : slice :=
match dst, out with
| None, [] => None
| _, _ => Some (elems dst ++ out)
end.

(** [subtle.ConstantTimeCompare(x, y) == 1] *)
Definition ConstantTimeCompare (x y : bytes) : bool :=
if list_eq_dec byte_eq_dec x y then true else false.

(** ** The package *)

(** The libraries the package calls, as an interface. *)
Class Lib : Type := {
  (** The state of [rand.Reader]; one [io.ReadFull] of [n] bytes from it
      gives the bytes it copied into the buffer, its error, and the next
      state. *)
  Reader : Type;
  rand_Read : Reader -> nat -> bytes * option error * Reader;

  (** [scrypt.Key(password, salt, N, r, p, keyLen)] *)
  scrypt_Key : bytes -> bytes -> Z -> Z -> Z -> Z -> slice * option error;

  (** GCM's two primitives under a key and a nonce: [counterCrypt] (XOR with
      the counter-mode keystream) and [auth] (the masked GHASH tag over the
      ciphertext and the additional data). *)
  gcm_counterCrypt : bytes -> bytes -> bytes -> bytes;
  gcm_auth : bytes -> bytes -> bytes -> bytes -> bytes
}.

Section Gocrypt.

Context {L : Lib}.

(** *** The world: entropy source and process log *)

Record World : Type := mkWorld { entropy : Reader; logged : list (string * error) }.

Definition M (A : Type) : Type := World -> outcome A * World.

Definition ret {A : Type} (a : A) : M A := fun w => (Returns a, w).

Definition bind {A B : Type} (m : M A) (k : A -> M B) : M B :=
  fun w =>
    match m w with
    | (Returns a, w') => k a w'
    | (Panics p, w') => (Panics p, w')
    end.

Definition raise {A : Type} (p : panic) : M A := fun w => (Panics p, w).

Notation "x <- m ;; k" := (bind m (fun x => k))
  (at level 61, m at next level, right associativity).
Notation "' pat <- m ;; k" := (bind m (fun x => match x with pat => k end))
  (at level 61, pat pattern, m at next level, right associativity).
Notation "m ;;; k" := (bind m (fun _ => k))
  (at level 61, right associativity).

(** [log.Println(prefix, err)] *)
Definition log_Println (prefix : string) (e : error) : M unit :=
  fun w => (Returns tt, mkWorld (entropy w) (logged w ++ [(prefix, e)])).

(** Copying [got] over the front of the buffer [b]. *)
Definition overwrite (b got : bytes) : bytes :=
  firstn (List.length b) (got ++ skipn (List.length got) b).

(** [io.ReadFull(rand.Reader, b)]: the buffer afterwards, the number of
    bytes copied, and the error. *)
Definition io_ReadFull (b : slice) : M (slice * nat * option error) :=
  fun w =>
    let '(got, err, rd) := rand_Read (entropy w) (len b) in
    (Returns (option_map (fun bs => overwrite bs got) b,
              Nat.min (List.length got) (len b), err),
     mkWorld rd (logged w)).

(** *** gcm.Seal and gcm.Open *)

Definition Seal (g : AEAD) (dst nonce plaintext data : slice) : M slice :=
  if negb (Nat.eqb (len nonce) (gcm_nonceSize g)) then raise PanicNonceLength
  else if Z.of_nat (len plaintext) >? gcm_max_plaintext g then raise PanicMessageTooLarge
  else
    let key := block_key (gcm_cipher g) in
    let out := gcm_counterCrypt key (elems nonce) (elems plaintext) in
    let tag := gcm_auth key (elems nonce) out (elems data) in
    ret (sliceForAppend dst (out ++ tag)).

Definition Open (g : AEAD) (dst nonce ciphertext data : slice) : M (slice * option error) :=
  if negb (Nat.eqb (len nonce) (gcm_nonceSize g)) then raise PanicNonceLength
  else if Nat.ltb (len ciphertext) (gcm_tagSize g) then ret (nil_slice, Some ErrOpen)
  else if Z.of_nat (len ciphertext) >? gcm_max_plaintext g + Z.of_nat (gcm_tagSize g)
  then ret (nil_slice, Some ErrOpen)
  else
    let key := block_key (gcm_cipher g) in
    let tag := skipn (len ciphertext - gcm_tagSize g) (elems ciphertext) in
    let body := firstn (len ciphertext - gcm_tagSize g) (elems ciphertext) in
    let expectedTag := gcm_auth key (elems nonce) body (elems data) in
    if negb (ConstantTimeCompare (firstn (gcm_tagSize g) expectedTag) tag)
    then ret (nil_slice, Some ErrOpen)
    else ret (sliceForAppend dst (gcm_counterCrypt key (elems nonce) body), None).

(** *** gocrypt.go *)

(** The literal of line 41. *)
Definition some_password : gostring := list_byte_of_string "some password".

Definition genSalt (nByte : nat) : M (slice * option error) :=
  let b := make nByte in
  '(b, _, err) <- io_ReadFull b ;;
  match err with
  | Some e => ret (nil_slice, Some e)
  | None => ret (b, None)
  end.

Definition createHash (salt : slice) (pass : gostring) : M (slice * gostring * option error) :=
  salt <- match salt with
          | None => '(s, _) <- genSalt 16 ;; ret s
          | Some _ => ret salt
          end ;;
  let '(dk, err) := scrypt_Key (elems (slice_of_string some_password)) (elems salt) 32768 8 1 32 in
  match err with
  | Some e =>
      log_Println "Scrypt Error:" e ;;;
      ret (salt, string_of_slice dk, Some e)
  | None => ret (salt, string_of_slice dk, None)
  end.

Definition Encrypt (data : slice) (pass : gostring) : M (slice * slice * option error) :=
  '(salt, hash, err) <- createHash nil_slice pass ;;
  match err with
  | Some e => ret (nil_slice, nil_slice, Some e)
  | None =>
      match aes_NewCipher (slice_of_string hash) with
      | Err e =>
          log_Println "Encrypt - Block Error:" e ;;;
          ret (nil_slice, nil_slice, Some e)
      | Ok block =>
          match cipher_NewGCM block with
          | Err e =>
              log_Println "Encrypt - GCM Error:" e ;;;
              ret (nil_slice, nil_slice, Some e)
          | Ok gcm =>
              let nonce := make (NonceSize gcm) in
              '(nonce, _, _) <- io_ReadFull nonce ;;
              ciphertext <- Seal gcm nonce nonce data nil_slice ;;
              ret (ciphertext, salt, None)
          end
      end
  end.

(** [data[:n], data[n:]] as one statement: the first operand is bounded
    by the capacity and the second by the length of [data], so the
    statement panics exactly when [len(data) < n]. *)
Definition split_at (data : slice) (n : nat) : M (slice * slice) :=
  if Nat.ltb (len data) n then raise PanicSliceBounds
  else ret (option_map (firstn n) data, option_map (skipn n) data).

Definition Decrypt (data salt : slice) (pass : gostring) : M (slice * option error) :=
  '(_, hash, err) <- createHash salt pass ;;
  match err with
  | Some e => ret (nil_slice, Some e)
  | None =>
      let key := slice_of_string hash in
      match aes_NewCipher key with
      | Err e =>
          log_Println "Decrypt - Block Error:" e ;;;
          ret (nil_slice, Some e)
      | Ok block =>
          match cipher_NewGCM block with
          | Err e =>
              log_Println "Decrypt - GCM Error:" e ;;;
              ret (nil_slice, Some e)
          | Ok gcm =>
              let nonceSize := NonceSize gcm in
              '(nonce, ciphertext) <- split_at data nonceSize ;;
              '(plaintext, err) <- Open gcm nil_slice nonce ciphertext nil_slice ;;
              match err with
              | Some e =>
                  log_Println "Decrypt - GCM Open Error:" e ;;;
                  ret (nil_slice, Some e)
              | None => ret (plaintext, None)
              end
          end
      end
  end.

(** *** Vocabulary for the properties *)

(** What [Seal] appends to [dst]: ciphertext, then tag. *)
Definition sealed (key nonce plaintext data : bytes) : bytes :=
  gcm_counterCrypt key nonce plaintext
    ++ gcm_auth key nonce (gcm_counterCrypt key nonce plaintext) data.

(** The cipher both [Encrypt] and [Decrypt] build from a 32-byte key. *)
Definition gcm_of (key : bytes) : AEAD :=
  mkGCM (mkBlock key AES256) gcmStandardNonceSize gcmTagSize.

(** [blob] carries, after a 12-byte nonce, a ciphertext whose tag verifies
    under [key], and [pt] is its decryption. *)
Definition authentic (key : bytes) (blob pt : slice) : Prop :=
  exists nonce body,
    List.length nonce = 12%nat /\
    elems blob = nonce ++ body ++ gcm_auth key nonce body [] /\
    elems pt = gcm_counterCrypt key nonce body.

End Gocrypt.

(** ** A small instance of the libraries

  Used to run the package on concrete inputs: a scripted entropy source, a
  derivation that pads salt and password to the requested length, a
  keystream of one repeated byte and a tag that folds nonce, ciphertext
  and additional data into the key. *)

Module Toy.

Definition reader : Type := list (bytes * option error).

(** Each read takes the next scripted answer; a finished script is an
    exhausted source. *)
Definition read (rd : reader) (n : nat) : bytes * option error * reader :=
  match rd with
  | [] => ([], Some (ErrReader "EOF"), [])
  | (got, err) :: rest => (got, err, rest)
  end.

Definition byte_xor (a b : byte) : byte :=
  let '(a0, (a1, (a2, (a3, (a4, (a5, (a6, a7))))))) := Byte.to_bits a in
  let '(b0, (b1, (b2, (b3, (b4, (b5, (b6, b7))))))) := Byte.to_bits b in
  Byte.of_bits (xorb a0 b0, (xorb a1 b1, (xorb a2 b2, (xorb a3 b3,
               (xorb a4 b4, (xorb a5 b5, (xorb a6 b6, xorb a7 b7))))))).

Definition derive (password salt : bytes) (N r p keyLen : Z) : slice * option error :=
  (Some (firstn (Z.to_nat keyLen) (salt ++ password ++ repeat x00 (Z.to_nat keyLen))), None).

Definition counterCrypt (key nonce x : bytes) : bytes :=
  map (byte_xor (hd x00 key)) x.

Definition auth (key nonce c data : bytes) : bytes :=
  map (byte_xor (fold_right byte_xor x00 (nonce ++ c ++ data)))
      (firstn 16 (key ++ repeat x00 16)).

Definition lib : Lib :=
  {| Reader := reader;
     rand_Read := read;
     scrypt_Key := derive;
     gcm_counterCrypt := counterCrypt;
     gcm_auth := auth |}.

(** A source that answers the salt read and the nonce read. *)
Definition salt16 : bytes := map (fun n => match Byte.of_nat n with Some b => b | None => x00 end) (seq 1 16).
Definition nonce12 : bytes := map (fun n => match Byte.of_nat n with Some b => b | None => x00 end) (seq 101 12).

Definition healthy : World (L := lib) := mkWorld (L := lib) [(salt16, None); (nonce12, None)] [].

(** A source that is exhausted from the start. *)
Definition exhausted : World (L := lib) := mkWorld (L := lib) [] [].

(** A source that answers the salt read and fails the nonce read after
    five bytes. *)
Definition failing_nonce : World (L := lib) :=
  mkWorld (L := lib) [(salt16, None); (firstn 5 nonce12, Some (ErrReader "unexpected EOF"))] [].

Definition hello : slice := Some (list_byte_of_string "Hello World").
Definition pass1 : gostring := list_byte_of_string "pass1".
Definition pass2 : gostring := list_byte_of_string "pass2".

End Toy.

(** ** The file-oriented functions

    [EncryptToFile], [DecryptFromFile], [EncryptFile] and [DecryptFile]
    wrap [Encrypt] and [Decrypt] in calls of [os.Create], [File.Write],
    [File.Close] and [ioutil.ReadFile].  The file system is modelled
    by what those calls observe and change. *)

(** Errors as the file layer sees them: those of the cryptographic layer,
    and those of package [os]. *)
Inductive ioerror : Type :=
| CryptoErr (e : error)
| PathError (op : string) (path : gostring) (msg : string)   (* *fs.PathError *)
| ErrInvalid.                                                (* os.ErrInvalid *)

Definition gostring_eqb (a b : gostring) : bool :=
  if list_eq_dec byte_eq_dec a b then true else false.

Record FS : Type := mkFS {
  (** what [ioutil.ReadFile(name)] returns *)
  read_result : gostring -> slice * option ioerror;
  (** the error of [os.Create(name)], if it fails *)
  create_fault : gostring -> option ioerror;
  (** a failing [Write] to [name]: the bytes it stores before its error *)
  write_fault : gostring -> option (nat * ioerror);
  (** the files opened and not yet closed, latest first *)
  open_files : list gostring
}.

(** The file [name] holding [content]. *)
Definition set_file (fs : FS) (name : gostring) (content : bytes) : FS :=
  mkFS (fun p => if gostring_eqb p name then (Some content, None) else read_result fs p)
       (create_fault fs) (write_fault fs) (open_files fs).

Definition set_open (fs : FS) (l : list gostring) : FS :=
  mkFS (read_result fs) (create_fault fs) (write_fault fs) l.

(** Dropping the latest handle on [name]. *)
Fixpoint drop_handle (name : gostring) (l : list gostring) : list gostring :=
  match l with
  | [] => []
  | p :: l' => if gostring_eqb p name then l' else p :: drop_handle name l'
  end.

Section GocryptFiles.

Context {L : Lib}.

(** The process: entropy source, file system, and the one log that both
    layers write to. *)
Record Sys : Type := mkSys {
  rng : Reader;
  fs : FS;
  slog : list (string * ioerror)
}.

Definition MF (A : Type) : Type := Sys -> outcome A * Sys.

Definition retF {A : Type} (a : A) : MF A := fun s => (Returns a, s).

Definition bindF {A B : Type} (m : MF A) (k : A -> MF B) : MF B :=
  fun s =>
    match m s with
    | (Returns a, s') => k a s'
    | (Panics p, s') => (Panics p, s')
    end.

Notation "x <- m ;; k" := (bindF m (fun x => k))
  (at level 61, m at next level, right associativity).
Notation "' pat <- m ;; k" := (bindF m (fun x => match x with pat => k end))
  (at level 61, pat pattern, m at next level, right associativity).
Notation "m ;;; k" := (bindF m (fun _ => k))
  (at level 61, right associativity).

(** A computation of the cryptographic layer that only appends to the log:
    started with [l] already logged, it does what it does on an empty log,
    with [l] in front of what it logs. *)
Definition appends_only {A : Type} (m : M A) : Prop :=
  forall (r : Reader) (l : list (string * error)),
    m (mkWorld r l) =
    (fst (m (mkWorld r [])),
     mkWorld (entropy (snd (m (mkWorld r [])))) (l ++ logged (snd (m (mkWorld r []))))).

(** A call into the cryptographic layer.  That layer only appends to the
    log, so it is run on an empty one and what it logged is appended. *)
Definition call {A : Type} (m : M A) : MF A :=
  fun s =>
    let '(r, w) := m (mkWorld (rng s) []) in
    (r, mkSys (entropy w) (fs s)
              (slog s ++ map (fun pe => (fst pe, CryptoErr (snd pe))) (logged w))).

(** [defer cleanup] before [body]: [cleanup] runs when [body] has returned
    or panicked, and its result is dropped. *)
Definition defer {A : Type} (cleanup : MF (option ioerror)) (body : MF A) : MF A :=
  fun s =>
    let '(r, s') := body s in
    (r, snd (cleanup s')).

(** [log.Println(prefix, err)] *)
Definition log_PrintlnF (prefix : string) (e : ioerror) : MF unit :=
  fun s => (Returns tt, mkSys (rng s) (fs s) (slog s ++ [(prefix, e)])).

(** [ioutil.ReadFile(name)] *)
Definition ioutil_ReadFile (name : gostring) : MF (slice * option ioerror) :=
  fun s => (Returns (read_result (fs s) name), s).

(** [os.Create(name)]: the file is created or truncated and a handle on it
    returned; a pointer to an [os.File] is the name it was opened under,
    [None] is the [nil] pointer. *)
Definition os_Create (name : gostring) : MF (option gostring * option ioerror) :=
  fun s =>
    match create_fault (fs s) name with
    | Some e => (Returns (None, Some e), s)
    | None =>
        (Returns (Some name, None),
         mkSys (rng s)
               (set_open (set_file (fs s) name []) (name :: open_files (fs s)))
               (slog s))
    end.

(** [f.Write(b)]: the bytes go to the end of what the handle has written so
    far; on the [nil] file it is [ErrInvalid] and nothing happens. *)
Definition File_Write (f : option gostring) (b : slice) : MF (nat * option ioerror) :=
  match f with
  | None => retF (0%nat, Some ErrInvalid)
  | Some name =>
      fun s =>
        let old := elems (fst (read_result (fs s) name)) in
        match write_fault (fs s) name with
        | Some (n, e) =>
            (Returns (Nat.min n (len b), Some e),
             mkSys (rng s) (set_file (fs s) name (old ++ firstn n (elems b))) (slog s))
        | None =>
            (Returns (len b, None),
             mkSys (rng s) (set_file (fs s) name (old ++ elems b)) (slog s))
        end
  end.

(** [f.Close()] *)
Definition File_Close (f : option gostring) : MF (option ioerror) :=
  match f with
  | None => retF (Some ErrInvalid)
  | Some name =>
      fun s =>
        (Returns None,
         mkSys (rng s) (set_open (fs s) (drop_handle name (open_files (fs s)))) (slog s))
  end.

Definition ext_3dfx : gostring := list_byte_of_string ".3dfx".
Definition ext_salt : gostring := list_byte_of_string ".salt".

(** The parameter [to] is not used. *)
Definition EncryptToFile (file to : gostring) (data : slice) (passphrase : gostring)
  : MF (slice * option ioerror) :=
  '(f, err) <- os_Create file ;;
  match err with
  | Some e =>
      log_PrintlnF "Encrypt to File - Create File Error:" e ;;;
      retF (nil_slice, Some e)
  | None =>
      defer (File_Close f)
        ('(ciphertext, salt, err) <- call (Encrypt data passphrase) ;;
         match err with
         | Some e => retF (nil_slice, Some (CryptoErr e))
         | None =>
             File_Write f ciphertext ;;;
             retF (salt, None)
         end)
  end.

(** A failed read is logged and the function goes on with what
    [ReadFile] returned. *)
Definition DecryptFromFile (file : gostring) (salt : slice) (passphrase : gostring)
  : MF (slice * option ioerror) :=
  '(data, err) <- ioutil_ReadFile file ;;
  match err with
  | Some e => log_PrintlnF "Decrypt from File - Read File Error:" e
  | None => retF tt
  end ;;;
  '(decrypted, err) <- call (Decrypt data salt passphrase) ;;
  match err with
  | Some e => retF (nil_slice, Some (CryptoErr e))
  | None => retF (decrypted, None)
  end.

(** With a destination given, lines 216-219 set [toFile] and return [err],
    which is [nil] there. *)
Definition EncryptFile (file from to passphrase : gostring) : MF (option ioerror) :=
  '(data, err) <- ioutil_ReadFile (from ++ file) ;;
  match err with
  | Some e =>
      log_PrintlnF "Encrypt File - Read File Error:" e ;;;
      retF (Some e)
  | None =>
      let toFile := file in
      match to with
      | _ :: _ =>
          let toFile := to ++ file in
          retF err
      | [] =>
          '(xf, err) <- os_Create (toFile ++ ext_3dfx) ;;
          match err with
          | Some e =>
              log_PrintlnF "Encrypt File - Create Encrypted File Error:" e ;;;
              retF (Some e)
          | None =>
              defer (File_Close xf)
                ('(cipherdata, salt, err) <- call (Encrypt data passphrase) ;;
                 match err with
                 | Some e => retF (Some (CryptoErr e))
                 | None =>
                     File_Write xf cipherdata ;;;
                     '(sf, err) <- os_Create (toFile ++ ext_salt) ;;
                     match err with
                     | Some e =>
                         log_PrintlnF "Encrypt File - Create Salt File Error:" e ;;;
                         retF (Some e)
                     | None =>
                         defer (File_Close sf)
                           (File_Write sf salt ;;;
                            retF None)
                     end
                 end)
          end
      end
  end.

(** None of the three errors before [Decrypt] ends the function. *)
Definition DecryptFile (file from to passphrase : gostring) : MF (option ioerror) :=
  '(data, err) <- ioutil_ReadFile (from ++ file ++ ext_3dfx) ;;
  match err with
  | Some e => log_PrintlnF "Encrypt File - Read File Error:" e
  | None => retF tt
  end ;;;
  '(salt, err) <- ioutil_ReadFile (from ++ file ++ ext_salt) ;;
  match err with
  | Some e => log_PrintlnF "Encrypt File - Read File Error:" e
  | None => retF tt
  end ;;;
  let toFile := match to with
                | _ :: _ => to ++ file
                | [] => file
                end in
  '(xf, err) <- os_Create toFile ;;
  match err with
  | Some e => log_PrintlnF "Encrypt File - Create Encrypted File Error:" e
  | None => retF tt
  end ;;;
  defer (File_Close xf)
    ('(plaindata, err) <- call (Decrypt data salt passphrase) ;;
     match err with
     | Some e => retF (Some (CryptoErr e))
     | None =>
         File_Write xf plaindata ;;;
         retF None
     end).

End GocryptFiles.

(** A file system for concrete runs: one file, and nothing that fails. *)
Module ToyFiles.

Definition input : gostring := list_byte_of_string "notes".
Definition dir : gostring := list_byte_of_string "out/".

Definition disk : FS :=
  mkFS (fun p => if gostring_eqb p input
                 then (Some (list_byte_of_string "Hello World"), None)
                 else (None, Some (PathError "open" p "no such file or directory")))
       (fun _ => None) (fun _ => None) [].

Definition start : Sys (L := Toy.lib) :=
  mkSys (L := Toy.lib) [(Toy.salt16, None); (Toy.nonce12, None)] disk [].

(** The same with an exhausted entropy source. *)
Definition start_dry : Sys (L := Toy.lib) := mkSys (L := Toy.lib) [] disk [].

(** The same on a disk that stores five bytes of a write and then fails. *)
Definition full_disk : FS :=
  mkFS (read_result disk) (fun _ => None)
       (fun _ => Some (5%nat, PathError "write" input "no space left on device")) [].

Definition start_full : Sys (L := Toy.lib) :=
  mkSys (L := Toy.lib) [(Toy.salt16, None); (Toy.nonce12, None)] full_disk [].

(** Libraries whose [scrypt.Key] turns its parameters down. *)
Definition rejecting_lib : Lib :=
  {| Reader := Toy.reader;
     rand_Read := Toy.read;
     scrypt_Key := fun _ _ _ _ _ _ =>
                     (None, Some (ErrScrypt "scrypt: parameters are too large"));
     gcm_counterCrypt := Toy.counterCrypt;
     gcm_auth := Toy.auth |}.

Definition start_rejecting : Sys (L := rejecting_lib) :=
  mkSys (L := rejecting_lib) [(Toy.salt16, None); (Toy.nonce12, None)] disk [].

End ToyFiles.

(** ** Properties *)

Section Properties.

Context {L : Lib}.

(** The contracts of the libraries. *)

(** [scrypt.Key] returns [keyLen] bytes when it accepts its parameters. *)
Hypothesis scrypt_Key_length :
  forall pw s N r p n dk,
    0 <= n -> scrypt_Key pw s N r p n = (dk, None) -> Z.of_nat (len dk) = n.

(** Counter mode is an XOR with a keystream as long as its input. *)
Hypothesis counterCrypt_length :
  forall k n x, List.length (gcm_counterCrypt k n x) = List.length x.
Hypothesis counterCrypt_involutive :
  forall k n x, gcm_counterCrypt k n (gcm_counterCrypt k n x) = x.

(** The tag has [gcmTagSize] bytes. *)
Hypothesis auth_length :
  forall k n c a, List.length (gcm_auth k n c a) = gcmTagSize.

Lemma overwrite_length (b got : bytes) :
  List.length (overwrite b got) = List.length b.
Proof.
  unfold overwrite.
  rewrite length_firstn, length_app, length_skipn. lia.
Qed.

Lemma sealed_length key nonce pt data :
  List.length (sealed key nonce pt data) = (List.length pt + 16)%nat.
Proof.
  unfold sealed.
  rewrite length_app, counterCrypt_length, auth_length. reflexivity.
Qed.

Lemma cipher_of_key (h : gostring) :
  List.length h = 32%nat ->
  aes_NewCipher (slice_of_string h) = Ok (mkBlock h AES256).
Proof.
  intros Hlen. unfold aes_NewCipher, len. simpl. rewrite Hlen. reflexivity.
Qed.

(** [createHash] with a salt supplied: no read, one derivation. *)
Lemma createHash_supplied (s : bytes) (pass : gostring) (w : World) :
  createHash (Some s) pass w =
  match scrypt_Key some_password s 32768 8 1 32 with
  | (dk, Some e) =>
      (Returns (Some s, elems dk, Some e),
       mkWorld (entropy w) (logged w ++ [("Scrypt Error:"%string, e)]))
  | (dk, None) => (Returns (Some s, elems dk, None), w)
  end.
Proof.
  unfold createHash, bind, ret, log_Println, string_of_slice. simpl.
  destruct (scrypt_Key some_password s 32768 8 1 32) as [dk [e|]]; reflexivity.
Qed.

(** [createHash] without a salt: one read of 16 bytes; when the read
    reports an error the salt stays [nil] and the derivation goes on. *)
Lemma createHash_generated (pass : gostring) (w : World) :
  createHash nil_slice pass w =
  let '(got, rerr, rd) := rand_Read (entropy w) 16 in
  let salt := match rerr with
              | Some _ => nil_slice
              | None => Some (overwrite (repeat x00 16) got)
              end in
  match scrypt_Key some_password (elems salt) 32768 8 1 32 with
  | (dk, Some e) =>
      (Returns (salt, elems dk, Some e),
       mkWorld rd (logged w ++ [("Scrypt Error:"%string, e)]))
  | (dk, None) => (Returns (salt, elems dk, None), mkWorld rd (logged w))
  end.
Proof.
  unfold createHash, genSalt, io_ReadFull, bind, ret, log_Println,
    string_of_slice, nil_slice.
  change (len (make 16)) with 16%nat. cbv beta iota.
  destruct (rand_Read (entropy w) 16) as [[got rerr] rd].
  destruct rerr as [e|]; cbn [elems option_map make slice_of_string];
    match goal with
    | |- context [scrypt_Key ?pw ?sl ?cN ?cr ?cp ?n] =>
        destruct (scrypt_Key pw sl cN cr cp n) as [dk [e'|]]; reflexivity
    end.
Qed.

(** A derivation that reports no error hands over 32 bytes. *)
Lemma createHash_key_length salt pass w s h w' :
  createHash salt pass w = (Returns (s, h, None), w') ->
  List.length h = 32%nat.
Proof.
  intros H.
  assert (Hk : forall x dk, scrypt_Key some_password x 32768 8 1 32 = (dk, None) ->
                            List.length (elems dk) = 32%nat).
  { intros x dk Hd. apply scrypt_Key_length in Hd; [|lia]. unfold len in Hd. lia. }
  destruct salt as [s0|].
  - rewrite createHash_supplied in H.
    destruct (scrypt_Key some_password s0 32768 8 1 32) as [dk [e|]] eqn:Hd;
      inversion H; subst. eauto.
  - rewrite createHash_generated in H.
    destruct (rand_Read (entropy w) 16) as [[got rerr] rd].
    cbv zeta in H.
    match type of H with
    | context [scrypt_Key ?pw ?sl ?cN ?cr ?cp ?n] =>
        destruct (scrypt_Key pw sl cN cr cp n) as [dk [e|]] eqn:Hd
    end; inversion H; subst. eauto.
Qed.

Lemma createHash_returns salt pass w :
  exists s h err w1, createHash salt pass w = (Returns (s, h, err), w1).
Proof.
  destruct salt as [s0|].
  - rewrite createHash_supplied.
    destruct (scrypt_Key some_password s0 32768 8 1 32) as [dk [e|]]; eauto.
  - rewrite createHash_generated.
    destruct (rand_Read (entropy w) 16) as [[got rerr] rd]. cbv zeta.
    match goal with
    | |- context [scrypt_Key ?pw ?sl ?cN ?cr ?cp ?n] =>
        destruct (scrypt_Key pw sl cN cr cp n) as [dk [e|]]
    end; eauto.
Qed.

Lemma firstn_exact (a b : bytes) (n : nat) :
  n = List.length a -> firstn n (a ++ b) = a.
Proof.
  intros ->. rewrite firstn_app, Nat.sub_diag, firstn_all. simpl.
  apply app_nil_r.
Qed.

Lemma skipn_exact (a b : bytes) (n : nat) :
  n = List.length a -> skipn n (a ++ b) = b.
Proof.
  intros ->. rewrite skipn_app, Nat.sub_diag, skipn_all. reflexivity.
Qed.

Lemma ConstantTimeCompare_refl (x : bytes) : ConstantTimeCompare x x = true.
Proof.
  unfold ConstantTimeCompare. destruct (list_eq_dec byte_eq_dec x x); congruence.
Qed.

Lemma ConstantTimeCompare_true (x y : bytes) :
  ConstantTimeCompare x y = true -> x = y.
Proof.
  unfold ConstantTimeCompare. destruct (list_eq_dec byte_eq_dec x y); congruence.
Qed.

(** [Seal] under the package's cipher. *)
Lemma Seal_run key dst nonce pt data w :
  Seal (gcm_of key) dst nonce pt data w =
  if negb (Nat.eqb (len nonce) 12) then (Panics PanicNonceLength, w)
  else if Z.of_nat (len pt) >? (2 ^ 32 - 2) * 16 then (Panics PanicMessageTooLarge, w)
  else (Returns (sliceForAppend dst (sealed key (elems nonce) (elems pt) (elems data))), w).
Proof.
  unfold Seal, gcm_of, raise, ret, sealed, gcm_max_plaintext, BlockSize.
  cbn [gcm_nonceSize gcm_cipher block_key].
  change gcmStandardNonceSize with 12%nat. change (Z.of_nat 16) with 16.
  destruct (negb (len nonce =? 12)%nat); [reflexivity|].
  destruct (Z.of_nat (len pt) >? (2 ^ 32 - 2) * 16); reflexivity.
Qed.

(** [Open] gives back what [Seal] was given. *)
Lemma Open_sealed key dst nonce pt w :
  List.length nonce = 12%nat ->
  Z.of_nat (List.length pt) <= (2 ^ 32 - 2) * 16 ->
  Open (gcm_of key) dst (Some nonce) (Some (sealed key nonce pt [])) nil_slice w =
  (Returns (sliceForAppend dst pt, None), w).
Proof.
  intros Hn Hp.
  assert (Hlen : len (Some (sealed key nonce pt [])) = (List.length pt + 16)%nat)
    by (unfold len; simpl; apply sealed_length).
  unfold Open, gcm_of, raise, ret, gcm_max_plaintext, nil_slice, BlockSize.
  cbn [gcm_nonceSize gcm_tagSize gcm_cipher block_key].
  change gcmStandardNonceSize with 12%nat. change gcmTagSize with 16%nat.
  change (Z.of_nat 16) with 16.
  rewrite Hlen.
  replace (len (Some nonce)) with 12%nat by (unfold len; simpl; lia).
  cbn [Nat.eqb negb].
  replace (List.length pt + 16 <? 16)%nat with false
    by (symmetry; apply Nat.ltb_ge; lia).
  replace (Z.of_nat (List.length pt + 16) >? (2 ^ 32 - 2) * 16 + 16) with false
    by (symmetry; rewrite Z.gtb_ltb; apply Z.ltb_ge; lia).
  replace (List.length pt + 16 - 16)%nat with (List.length pt) by lia.
  cbn [elems]. unfold sealed.
  rewrite firstn_exact, skipn_exact by (rewrite counterCrypt_length; reflexivity).
  rewrite firstn_all2 by (rewrite auth_length; unfold gcmTagSize; lia).
  rewrite ConstantTimeCompare_refl, counterCrypt_involutive. reflexivity.
Qed.

(** Every way [Open] can end: the world is untouched, and a plaintext
    comes out only next to a tag that verified. *)
Lemma Open_cases key nonce ct w :
  exists r,
    Open (gcm_of key) nil_slice nonce ct nil_slice w = (r, w) /\
    ((r = Panics PanicNonceLength /\ len nonce <> 12%nat) \/
     (r = Returns (nil_slice, Some ErrOpen) /\ len nonce = 12%nat) \/
     (exists body,
         len nonce = 12%nat /\
         elems ct = body ++ gcm_auth key (elems nonce) body [] /\
         r = Returns (sliceForAppend nil_slice
                        (gcm_counterCrypt key (elems nonce) body), None))).
Proof.
  unfold Open, gcm_of, raise, ret, gcm_max_plaintext, nil_slice, BlockSize.
  cbn [gcm_nonceSize gcm_tagSize gcm_cipher block_key elems].
  change gcmStandardNonceSize with 12%nat. change gcmTagSize with 16%nat.
  destruct (len nonce =? 12)%nat eqn:Hn; cbn [negb].
  2:{ apply Nat.eqb_neq in Hn. eauto. }
  apply Nat.eqb_eq in Hn.
  destruct (len ct <? 16)%nat; [eauto 6|].
  destruct (Z.of_nat (len ct) >? (2 ^ 32 - 2) * Z.of_nat 16 + Z.of_nat 16); [eauto 6|].
  set (body := firstn (len ct - 16) (elems ct)).
  set (tag := skipn (len ct - 16) (elems ct)).
  destruct (ConstantTimeCompare
              (firstn 16 (gcm_auth key (elems nonce) body [])) tag) eqn:Hc;
    cbn [negb]; [|eauto 6].
  apply ConstantTimeCompare_true in Hc.
  rewrite firstn_all2 in Hc by (rewrite auth_length; unfold gcmTagSize; lia).
  eexists. split; [reflexivity|]. right. right. exists body.
  repeat split; [assumption|].
  rewrite Hc. unfold body, tag. symmetry. apply firstn_skipn.
Qed.

(** [Decrypt] once the derivation has reported no error: the cipher is
    built, the blob is split, and [Open] decides. *)
Lemma Decrypt_derived data salt pass w s h w1 :
  createHash salt pass w = (Returns (s, h, None), w1) ->
  Decrypt data salt pass w =
  if (len data <? 12)%nat then (Panics PanicSliceBounds, w1)
  else
    match Open (gcm_of h) nil_slice (option_map (firstn 12) data)
               (option_map (skipn 12) data) nil_slice w1 with
    | (Returns (pt, Some e), w2) =>
        (Returns (nil_slice, Some e),
         mkWorld (entropy w2) (logged w2 ++ [("Decrypt - GCM Open Error:"%string, e)]))
    | (Returns (pt, None), w2) => (Returns (pt, None), w2)
    | (Panics p, w2) => (Panics p, w2)
    end.
Proof.
  intros Hc. pose proof (createHash_key_length _ _ _ _ _ _ Hc) as Hlen.
  unfold Decrypt, bind. rewrite Hc. cbv beta iota.
  rewrite (cipher_of_key h Hlen).
  unfold cipher_NewGCM, BlockSize. cbn [Nat.eqb].
  unfold split_at, NonceSize, raise, ret. cbn [gcm_nonceSize].
  fold (gcm_of h). change gcmStandardNonceSize with 12%nat.
  destruct (len data <? 12)%nat; [reflexivity|].
  destruct (Open (gcm_of h) nil_slice (option_map (firstn 12) data)
                 (option_map (skipn 12) data) nil_slice w1) as [[[pt [e|]]|p] w2];
    reflexivity.
Qed.

(** [Decrypt] when the derivation reports an error. *)
Lemma Decrypt_underived data salt pass w s h e w1 :
  createHash salt pass w = (Returns (s, h, Some e), w1) ->
  Decrypt data salt pass w = (Returns (nil_slice, Some e), w1).
Proof.
  intros Hc. unfold Decrypt, bind. rewrite Hc. reflexivity.
Qed.

(** [Encrypt] once the derivation has reported no error: one read of 12
    bytes, whose error is dropped, then [Seal]. *)
Lemma Encrypt_derived data pass w s h w1 :
  createHash nil_slice pass w = (Returns (s, h, None), w1) ->
  Encrypt data pass w =
  let '(got, rerr, rd) := rand_Read (entropy w1) 12 in
  let nonce := overwrite (repeat x00 12) got in
  if Z.of_nat (len data) >? (2 ^ 32 - 2) * 16
  then (Panics PanicMessageTooLarge, mkWorld rd (logged w1))
  else (Returns (Some (nonce ++ sealed h nonce (elems data) []), s, None),
        mkWorld rd (logged w1)).
Proof.
  intros Hc. pose proof (createHash_key_length _ _ _ _ _ _ Hc) as Hlen.
  unfold Encrypt, bind. rewrite Hc. cbv beta iota.
  rewrite (cipher_of_key h Hlen).
  unfold cipher_NewGCM, BlockSize. cbn [Nat.eqb].
  unfold NonceSize, io_ReadFull. cbn [gcm_nonceSize].
  fold (gcm_of h). change gcmStandardNonceSize with 12%nat.
  change (len (make 12)) with 12%nat.
  destruct (rand_Read (entropy w1) 12) as [[got rerr] rd].
  cbn [option_map make]. cbv zeta.
  rewrite Seal_run.
  replace (len (Some (overwrite (repeat x00 12) got))) with 12%nat
    by (unfold len; cbn [elems]; rewrite overwrite_length, repeat_length; reflexivity).
  cbn [Nat.eqb negb elems nil_slice].
  destruct (Z.of_nat (len data) >? (2 ^ 32 - 2) * 16); reflexivity.
Qed.

(** [Encrypt] when the derivation reports an error. *)
Lemma Encrypt_underived data pass w s h e w1 :
  createHash nil_slice pass w = (Returns (s, h, Some e), w1) ->
  Encrypt data pass w = (Returns (nil_slice, nil_slice, Some e), w1).
Proof.
  intros Hc. unfold Encrypt, bind. rewrite Hc. reflexivity.
Qed.

Lemma elems_sliceForAppend_nil (x : bytes) :
  elems (sliceForAppend nil_slice x) = x.
Proof. destruct x; reflexivity. Qed.

(** The salt [Encrypt] hands out re-derives the key [Encrypt] used,
    whatever passphrase and world [Decrypt] is given. *)
Lemma createHash_replay W w salt h w1 :
  createHash nil_slice W w = (Returns (Some salt, h, None), w1) ->
  forall W2 w2, createHash (Some salt) W2 w2 = (Returns (Some salt, h, None), w2).
Proof.
  intros H W2 w2. rewrite createHash_generated in H.
  destruct (rand_Read (entropy w) 16) as [[got rerr] rd].
  cbv zeta in H. rewrite createHash_supplied.
  destruct rerr as [e|]; cbn [elems nil_slice] in H.
  - destruct (scrypt_Key some_password [] 32768 8 1 32) as [dk [e'|]];
      inversion H.
  - destruct (scrypt_Key some_password (overwrite (repeat x00 16) got) 32768 8 1 32)
      as [dk [e'|]] eqn:Hd; [discriminate H|].
    injection H as Hs Hh Hw. subst. cbn [repeat] in *. rewrite Hd. reflexivity.
Qed.

(** What a successful [Encrypt] did. *)
Lemma Encrypt_success P W w blob salt we :
  Encrypt P W w = (Returns (blob, salt, None), we) ->
  exists h w1 got rerr rd,
    createHash nil_slice W w = (Returns (salt, h, None), w1) /\
    rand_Read (entropy w1) 12 = (got, rerr, rd) /\
    Z.of_nat (len P) <= (2 ^ 32 - 2) * 16 /\
    blob = Some (overwrite (repeat x00 12) got
                   ++ sealed h (overwrite (repeat x00 12) got) (elems P) []) /\
    we = mkWorld rd (logged w1).
Proof.
  intros H.
  destruct (createHash_returns nil_slice W w) as (s & h & [e|] & w1 & Hc).
  - rewrite (Encrypt_underived _ _ _ _ _ _ _ Hc) in H. inversion H.
  - rewrite (Encrypt_derived _ _ _ _ _ _ Hc) in H.
    destruct (rand_Read (entropy w1) 12) as [[got rerr] rd] eqn:Hr.
    cbv zeta in H.
    destruct (Z.of_nat (len P) >? (2 ^ 32 - 2) * 16) eqn:Hsz; [discriminate H|].
    injection H as Hb Hs Hw. subst.
    exists h, w1, got, rerr, rd.
    repeat split; try assumption; try reflexivity.
    rewrite Z.gtb_ltb in Hsz. apply Z.ltb_ge in Hsz. exact Hsz.
Qed.

(** The blob of a successful [Encrypt] opens under the salt that came
    with it; the passphrase given to [Decrypt] plays no part. *)
Lemma roundtrip_any_passphrase P W1 W2 w blob salt we :
  Encrypt P W1 w = (Returns (blob, Some salt, None), we) ->
  forall w2, exists pt,
    Decrypt blob (Some salt) W2 w2 = (Returns (pt, None), w2) /\
    elems pt = elems P.
Proof.
  intros H w2.
  destruct (Encrypt_success _ _ _ _ _ _ H)
    as (h & w1 & got & rerr & rd & Hc & Hr & Hsz & Hblob & Hwe).
  pose proof (createHash_replay _ _ _ _ _ Hc W2 w2) as Hc2.
  set (nonce := overwrite (repeat x00 12) got) in *.
  assert (Hn : List.length nonce = 12%nat)
    by (unfold nonce; rewrite overwrite_length, repeat_length; reflexivity).
  rewrite (Decrypt_derived _ _ _ _ _ _ _ Hc2). subst blob.
  replace (len (Some (nonce ++ sealed h nonce (elems P) [])) <? 12)%nat with false
    by (symmetry; apply Nat.ltb_ge; unfold len; cbn [elems];
        rewrite length_app; lia).
  cbn [option_map].
  rewrite firstn_exact, skipn_exact by (symmetry; exact Hn).
  rewrite Open_sealed by (assumption || exact Hsz).
  exists (sliceForAppend nil_slice (elems P)). split; [reflexivity|].
  apply elems_sliceForAppend_nil.
Qed.

(** Round trip on the path where a salt was generated.  Whenever
    [Encrypt P W] returns a blob and a salt with no error, [Decrypt] of that blob with that salt and the same
    passphrase [W] returns with no error, and the plaintext it returns has
    exactly the bytes of [P]; [P] may be empty.  [Decrypt] may run in any
    world: with the salt supplied it reads no entropy and leaves the world
    as it found it. *)
Theorem Decrypt_Encrypt_roundtrip :
  forall (P : slice) (W : gostring) (w we : World) (blob : slice) (salt : bytes),
    Encrypt P W w = (Returns (blob, Some salt, None), we) ->
    forall w2 : World, exists pt : slice,
      Decrypt blob (Some salt) W w2 = (Returns (pt, None), w2) /\
      elems pt = elems P.
Proof.
  intros P W w we blob salt H. exact (roundtrip_any_passphrase P W W w blob salt we H).
Qed.

(** C4 — the code at a wrong passphrase.  The claim asks that [Decrypt]
    with a passphrase other than the one given to [Encrypt] fail with the
    authentication error.  In the code the passphrase never reaches the
    derivation, so [Decrypt] with any other passphrase [W2] returns the
    plaintext with no error. *)
Theorem Decrypt_accepts_wrong_passphrase :
  forall (P : slice) (W1 W2 : gostring) (w we : World) (blob : slice) (salt : bytes),
    W1 <> W2 ->
    Encrypt P W1 w = (Returns (blob, Some salt, None), we) ->
    forall w2 : World, exists pt : slice,
      Decrypt blob (Some salt) W2 w2 = (Returns (pt, None), w2) /\
      elems pt = elems P.
Proof.
  intros P W1 W2 w we blob salt _ H.
  exact (roundtrip_any_passphrase P W1 W2 w blob salt we H).
Qed.

(** C2 — the passphrase is ignored.  [createHash] returns the same result
    for any two passphrases; with a salt supplied that result does not
    depend on the world either, and its key is what [scrypt.Key] derives
    from the literal ["some password"] and the salt. *)
Theorem createHash_ignores_passphrase :
  forall (W1 W2 : gostring),
    (forall (salt : slice) (w : World),
        createHash salt W1 w = createHash salt W2 w) /\
    (forall (s : bytes) (w1 w2 : World),
        fst (createHash (Some s) W1 w1) = fst (createHash (Some s) W2 w2)) /\
    (forall (s : bytes) (w : World),
        fst (createHash (Some s) W1 w) =
        let r := scrypt_Key (list_byte_of_string "some password") s 32768 8 1 32 in
        Returns (Some s, elems (fst r), snd r)).
Proof.
  intros W1 W2. split; [|split].
  - intros salt w. reflexivity.
  - intros s w1 w2. rewrite !createHash_supplied.
    destruct (scrypt_Key some_password s 32768 8 1 32) as [dk [e|]]; reflexivity.
  - intros s w. rewrite createHash_supplied. fold some_password.
    destruct (scrypt_Key some_password s 32768 8 1 32) as [dk [e|]]; reflexivity.
Qed.

(** C7 — determinism of the derivation.  Two calls of [createHash] with
    the same salt and passphrase return the same salt, key and error, in
    whatever worlds they run; the key is [scrypt.Key]'s output for
    N = 32768, r = 8, p = 1 and 32 requested bytes, and when no error is
    reported it has exactly 32 bytes. *)
Theorem createHash_deterministic :
  forall (s : bytes) (W : gostring) (w1 w2 : World),
    fst (createHash (Some s) W w1) = fst (createHash (Some s) W w2) /\
    (exists (dk : slice) (err : option error),
        scrypt_Key some_password s 32768 8 1 32 = (dk, err) /\
        fst (createHash (Some s) W w1) = Returns (Some s, elems dk, err) /\
        (err = None -> List.length (elems dk) = 32%nat)).
Proof.
  intros s W w1 w2. split.
  - rewrite !createHash_supplied.
    destruct (scrypt_Key some_password s 32768 8 1 32) as [dk [e|]]; reflexivity.
  - destruct (createHash (Some s) W w1) as [r w'] eqn:Hc.
    pose proof Hc as Hc'. rewrite createHash_supplied in Hc'.
    destruct (scrypt_Key some_password s 32768 8 1 32) as [dk [e|]] eqn:Hd;
      injection Hc' as Hr Hw; subst r; exists dk; eexists;
      (split; [reflexivity|split; [reflexivity|]]).
    + discriminate.
    + intros _. subst w'. exact (createHash_key_length _ _ _ _ _ _ Hc).
Qed.

(** C6 — layout of the blob.  A successful [Encrypt] returns the 12-byte
    nonce followed by the sealed payload: the counter-mode ciphertext, as
    long as the plaintext, followed by the 16-byte tag, both under the
    derived key and that nonce.  The blob has [12 + len(P) + 16] bytes; for
    the 11 bytes of ["Hello World"] that is 39. *)
Theorem Encrypt_blob_layout :
  forall (P : slice) (W : gostring) (w we : World) (blob salt : slice),
    Encrypt P W w = (Returns (blob, salt, None), we) ->
    (exists (key : gostring) (w1 : World) (nonce : bytes),
        createHash nil_slice W w = (Returns (salt, key, None), w1) /\
        let ct := gcm_counterCrypt key nonce (elems P) in
        let tag := gcm_auth key nonce ct [] in
        elems blob = nonce ++ ct ++ tag /\
        firstn 12 (elems blob) = nonce /\
        skipn 12 (elems blob) = ct ++ tag /\
        List.length nonce = 12%nat /\
        List.length ct = len P /\
        List.length tag = 16%nat) /\
    len blob = (12 + len P + 16)%nat /\
    (elems P = list_byte_of_string "Hello World" -> len blob = 39%nat).
Proof.
  intros P W w we blob salt H.
  destruct (Encrypt_success _ _ _ _ _ _ H)
    as (h & w1 & got & rerr & rd & Hc & Hr & Hsz & Hblob & Hwe).
  set (nonce := overwrite (repeat x00 12) got) in *.
  assert (Hn : List.length nonce = 12%nat)
    by (unfold nonce; rewrite overwrite_length, repeat_length; reflexivity).
  assert (Hlen : len blob = (12 + len P + 16)%nat).
  { subst blob. unfold len. cbn [elems].
    rewrite length_app, sealed_length. lia. }
  split; [|split].
  - exists h, w1, nonce. split; [exact Hc|]. cbv zeta. subst blob. cbn [elems].
    fold (sealed h nonce (elems P) []).
    repeat split.
    + apply firstn_exact. symmetry. exact Hn.
    + apply skipn_exact. symmetry. exact Hn.
    + exact Hn.
    + apply counterCrypt_length.
    + apply auth_length.
  - exact Hlen.
  - intros HP. rewrite Hlen. unfold len. rewrite HP. reflexivity.
Qed.

(** [createHash] always returns, and logs exactly the error it returns. *)
Lemma createHash_logged salt pass w :
  exists s h err w1,
    createHash salt pass w = (Returns (s, h, err), w1) /\
    logged w1 = logged w ++ match err with
                            | Some e => [("Scrypt Error:"%string, e)]
                            | None => []
                            end.
Proof.
  destruct salt as [s0|].
  - rewrite createHash_supplied.
    destruct (scrypt_Key some_password s0 32768 8 1 32) as [dk [e|]];
      do 4 eexists; (split; [reflexivity|]); cbn [logged];
      rewrite ?app_nil_r; reflexivity.
  - rewrite createHash_generated.
    destruct (rand_Read (entropy w) 16) as [[got rerr] rd]. cbv zeta.
    match goal with
    | |- context [scrypt_Key ?pw ?sl ?cN ?cr ?cp ?n] =>
        destruct (scrypt_Key pw sl cN cr cp n) as [dk [e|]]
    end; do 4 eexists; (split; [reflexivity|]); cbn [logged];
      rewrite ?app_nil_r; reflexivity.
Qed.

Lemma bind_run A B (m : M A) (k : A -> M B) (w w1 : World) (a : A) :
  m w = (Returns a, w1) -> bind m k w = k a w1.
Proof. intros H. unfold bind. rewrite H. reflexivity. Qed.

(** C10 — the derived key selects AES-256.  A derivation that reports no
    error hands [aes.NewCipher] exactly 32 bytes, so the constructor
    returns the AES-256 cipher and [cipher.NewGCM] accepts it.  In
    [Encrypt] and in [Decrypt] alike, what follows such a derivation is
    therefore the rest of the function run with the GCM of the AES-256
    block whose key is the derived key: the nonce read and [Seal] in
    [Encrypt], the split and [Open] in [Decrypt].  The branches that log a
    block or GCM error are never taken: all [Encrypt] ever logs or returns
    as an error is the derivation's, and [Decrypt] adds only the
    authentication failure of [Open]. *)
Theorem derived_key_selects_AES256 :
  (forall (salt : slice) (pass : gostring) (w w1 : World) (s : slice) (h : gostring),
      createHash salt pass w = (Returns (s, h, None), w1) ->
      len (slice_of_string h) = 32%nat /\
      aes_NewCipher (slice_of_string h) = Ok (mkBlock h AES256) /\
      cipher_NewGCM (mkBlock h AES256) = Ok (gcm_of h)) /\
  (forall (P : slice) (W : gostring) (w w1 : World) (s : slice) (h : gostring),
      createHash nil_slice W w = (Returns (s, h, None), w1) ->
      Encrypt P W w =
      bind (io_ReadFull (make 12))
           (fun x =>
              let '(nonce, _, _) := x in
              bind (Seal (mkGCM (mkBlock h AES256) 12 16) nonce nonce P nil_slice)
                   (fun ciphertext => ret (ciphertext, s, None)))
           w1) /\
  (forall (data salt : slice) (W : gostring) (w w1 : World) (s : slice) (h : gostring),
      createHash salt W w = (Returns (s, h, None), w1) ->
      Decrypt data salt W w =
      bind (split_at data 12)
           (fun x =>
              let '(nonce, ciphertext) := x in
              bind (Open (mkGCM (mkBlock h AES256) 12 16)
                         nil_slice nonce ciphertext nil_slice)
                   (fun y =>
                      let '(plaintext, err) := y in
                      match err with
                      | Some e =>
                          bind (log_Println "Decrypt - GCM Open Error:" e)
                               (fun _ => ret (nil_slice, Some e))
                      | None => ret (plaintext, None)
                      end))
           w1) /\
  (forall (P : slice) (W : gostring) (w we : World) r,
      Encrypt P W w = (r, we) ->
      logged we = logged w ++ match r with
                              | Returns (_, _, Some e) => [("Scrypt Error:"%string, e)]
                              | _ => []
                              end) /\
  (forall (data salt : slice) (W : gostring) (w we : World) r,
      Decrypt data salt W w = (r, we) ->
      match r with
      | Returns (_, Some e) =>
          logged we = logged w ++ [("Scrypt Error:"%string, e)] \/
          (e = ErrOpen /\
           logged we = logged w ++ [("Decrypt - GCM Open Error:"%string, e)])
      | _ => logged we = logged w
      end).
Proof.
  split; [|split; [|split; [|split]]].
  - intros salt pass w w1 s h Hc.
    pose proof (createHash_key_length _ _ _ _ _ _ Hc) as Hlen.
    split; [exact Hlen|]. split; [exact (cipher_of_key h Hlen)|reflexivity].
  - intros P W w w1 s h Hc.
    pose proof (createHash_key_length _ _ _ _ _ _ Hc) as Hlen.
    unfold Encrypt. rewrite (bind_run _ _ _ _ _ _ _ Hc). cbv beta iota.
    rewrite (cipher_of_key h Hlen). reflexivity.
  - intros data salt W w w1 s h Hc.
    pose proof (createHash_key_length _ _ _ _ _ _ Hc) as Hlen.
    unfold Decrypt. rewrite (bind_run _ _ _ _ _ _ _ Hc). cbv beta iota zeta.
    rewrite (cipher_of_key h Hlen). reflexivity.
  - intros P W w we r H.
    destruct (createHash_logged nil_slice W w) as (s & h & [e|] & w1 & Hc & Hlog).
    + rewrite (Encrypt_underived _ _ _ _ _ _ _ Hc) in H.
      injection H as Hr Hw. subst. exact Hlog.
    + rewrite (Encrypt_derived _ _ _ _ _ _ Hc) in H.
      destruct (rand_Read (entropy w1) 12) as [[got rerr] rd]. cbv zeta in H.
      destruct (Z.of_nat (len P) >? (2 ^ 32 - 2) * 16);
        injection H as Hr Hw; subst; exact Hlog.
  - intros data salt W w we r H.
    destruct (createHash_logged salt W w) as (s & h & [e|] & w1 & Hc & Hlog).
    + rewrite (Decrypt_underived _ _ _ _ _ _ _ _ Hc) in H.
      injection H as Hr Hw. subst. left. exact Hlog.
    + rewrite app_nil_r in Hlog.
      rewrite (Decrypt_derived _ _ _ _ _ _ _ Hc) in H.
      destruct (len data <? 12)%nat.
      { injection H as Hr Hw. subst. exact Hlog. }
      destruct (Open_cases h (option_map (firstn 12) data)
                           (option_map (skipn 12) data) w1)
        as (r0 & Hopen & [[Hr0 _]|[[Hr0 _]|(body & _ & _ & Hr0)]]);
        rewrite Hopen in H; subst r0; injection H as Hr Hw; subst.
      * exact Hlog.
      * right. split; [reflexivity|]. cbn [logged]. rewrite Hlog. reflexivity.
      * exact Hlog.
Qed.

(** C3 — the code at a short blob.  The claim asks for an error result
    when the blob is shorter than the 12-byte nonce.  The code slices the
    blob without looking at its length: once the key is derived, every
    blob of fewer than 12 bytes ends [Decrypt] in a slice-bounds panic. *)
Theorem Decrypt_short_blob_panics :
  forall (data salt : slice) (pass : gostring) (w w1 : World) (s : slice) (h : gostring),
    (len data < 12)%nat ->
    createHash salt pass w = (Returns (s, h, None), w1) ->
    Decrypt data salt pass w = (Panics PanicSliceBounds, w1).
Proof.
  intros data salt pass w w1 s h Hshort Hc.
  rewrite (Decrypt_derived _ _ _ _ _ _ _ Hc).
  apply Nat.ltb_lt in Hshort. rewrite Hshort. reflexivity.
Qed.

(** C5 — every outcome of [Decrypt].  When the derivation reports an
    error, [Decrypt] returns it with a [nil] plaintext.  Otherwise a blob
    of at least 12 bytes is all-or-nothing: either the authentication
    error with a [nil] plaintext, or no error and the decryption of a
    ciphertext whose tag verified under the derived key.  A blob of fewer
    than 12 bytes gives neither: [Decrypt] panics. *)
Theorem Decrypt_outcomes :
  forall (data salt : slice) (pass : gostring) (w : World),
  exists (s : slice) (h : gostring) (err : option error) (w1 : World) r (we : World),
    createHash salt pass w = (Returns (s, h, err), w1) /\
    Decrypt data salt pass w = (r, we) /\
    match err with
    | Some e => r = Returns (nil_slice, Some e)
    | None =>
        if (len data <? 12)%nat
        then r = Panics PanicSliceBounds
        else r = Returns (nil_slice, Some ErrOpen) \/
             (exists pt : slice, r = Returns (pt, None) /\ authentic h data pt)
    end.
Proof.
  intros data salt pass w.
  destruct (createHash_returns salt pass w) as (s & h & [e|] & w1 & Hc).
  - exists s, h, (Some e), w1. do 2 eexists. split; [exact Hc|].
    split; [exact (Decrypt_underived _ _ _ _ _ _ _ _ Hc)|reflexivity].
  - exists s, h, None, w1.
    rewrite (Decrypt_derived _ _ _ _ _ _ _ Hc).
    destruct (len data <? 12)%nat eqn:Hshort.
    { do 2 eexists. split; [exact Hc|]. split; reflexivity. }
    apply Nat.ltb_ge in Hshort.
    destruct data as [d|]; [|unfold len in Hshort; simpl in Hshort; lia].
    unfold len in Hshort. cbn [elems] in Hshort. cbn [option_map].
    assert (Hn : len (Some (firstn 12 d)) = 12%nat)
      by (unfold len; cbn [elems]; rewrite length_firstn; lia).
    destruct (Open_cases h (Some (firstn 12 d)) (Some (skipn 12 d)) w1)
      as (r0 & Hopen & [[_ Hbad]|[[Hr0 _]|(body & _ & Hct & Hr0)]]);
      [contradiction| |]; rewrite Hopen; subst r0.
    + do 2 eexists. split; [exact Hc|]. split; [reflexivity|]. left. reflexivity.
    + do 2 eexists. split; [exact Hc|]. split; [reflexivity|]. right.
      eexists. split; [reflexivity|].
      exists (firstn 12 d), body. cbn [elems] in *.
      split; [unfold len in Hn; exact Hn|]. split.
      * rewrite <- Hct. symmetry. apply firstn_skipn.
      * apply elems_sliceForAppend_nil.
Qed.

(** C8 — the code when the salt read fails.  [genSalt] reports the read
    error, but [createHash] discards it: the salt stays [nil], the key is
    derived from the empty salt, and [createHash] returns with no error. *)
Theorem createHash_drops_salt_error :
  forall (pass : gostring) (w : World) (got : bytes) (e : error) (rd : Reader)
         (dk : slice),
    rand_Read (entropy w) 16 = (got, Some e, rd) ->
    scrypt_Key some_password [] 32768 8 1 32 = (dk, None) ->
    genSalt 16 w = (Returns (nil_slice, Some e), mkWorld rd (logged w)) /\
    createHash nil_slice pass w =
      (Returns (nil_slice, elems dk, None), mkWorld rd (logged w)).
Proof.
  intros pass w got e rd dk Hr Hd. split.
  - unfold genSalt, io_ReadFull, bind, ret.
    change (len (make 16)) with 16%nat. rewrite Hr. reflexivity.
  - rewrite createHash_generated, Hr. cbv zeta. cbn [elems nil_slice].
    rewrite Hd. reflexivity.
Qed.

(** C9 — the code when the nonce read fails.  [Encrypt] does not look at
    what [io.ReadFull] returns: it seals under the buffer as the failed
    read left it (the bytes copied, then zeros) and returns with no
    error. *)
Theorem Encrypt_drops_nonce_error :
  forall (P : slice) (W : gostring) (w w1 : World) (s : slice) (h : gostring)
         (got : bytes) (e : error) (rd : Reader),
    createHash nil_slice W w = (Returns (s, h, None), w1) ->
    rand_Read (entropy w1) 12 = (got, Some e, rd) ->
    Z.of_nat (len P) <= (2 ^ 32 - 2) * 16 ->
    let nonce := overwrite (repeat x00 12) got in
    Encrypt P W w =
      (Returns (Some (nonce ++ sealed h nonce (elems P) []), s, None),
       mkWorld rd (logged w1)).
Proof.
  intros P W w w1 s h got e rd Hc Hr Hsz nonce.
  rewrite (Encrypt_derived _ _ _ _ _ _ Hc), Hr. cbv zeta.
  replace (Z.of_nat (len P) >? (2 ^ 32 - 2) * 16) with false
    by (symmetry; rewrite Z.gtb_ltb; apply Z.ltb_ge; exact Hsz).
  reflexivity.
Qed.

(** [Open] under a key whose tag differs rejects the sealed payload. *)
Lemma Open_other_key key key' dst nonce pt w :
  List.length nonce = 12%nat ->
  Z.of_nat (List.length pt) <= (2 ^ 32 - 2) * 16 ->
  gcm_auth key' nonce (gcm_counterCrypt key nonce pt) []
    <> gcm_auth key nonce (gcm_counterCrypt key nonce pt) [] ->
  Open (gcm_of key') dst (Some nonce) (Some (sealed key nonce pt [])) nil_slice w =
  (Returns (nil_slice, Some ErrOpen), w).
Proof.
  intros Hn Hp Htag.
  assert (Hlen : len (Some (sealed key nonce pt [])) = (List.length pt + 16)%nat)
    by (unfold len; simpl; apply sealed_length).
  unfold Open, gcm_of, raise, ret, gcm_max_plaintext, nil_slice, BlockSize.
  cbn [gcm_nonceSize gcm_tagSize gcm_cipher block_key].
  change gcmStandardNonceSize with 12%nat. change gcmTagSize with 16%nat.
  change (Z.of_nat 16) with 16.
  rewrite Hlen.
  replace (len (Some nonce)) with 12%nat by (unfold len; simpl; lia).
  cbn [Nat.eqb negb].
  replace (List.length pt + 16 <? 16)%nat with false
    by (symmetry; apply Nat.ltb_ge; lia).
  replace (Z.of_nat (List.length pt + 16) >? (2 ^ 32 - 2) * 16 + 16) with false
    by (symmetry; rewrite Z.gtb_ltb; apply Z.ltb_ge; lia).
  replace (List.length pt + 16 - 16)%nat with (List.length pt) by lia.
  cbn [elems]. unfold sealed.
  rewrite firstn_exact, skipn_exact by (rewrite counterCrypt_length; reflexivity).
  rewrite firstn_all2 by (rewrite auth_length; unfold gcmTagSize; lia).
  destruct (ConstantTimeCompare
              (gcm_auth key' nonce (gcm_counterCrypt key nonce pt) [])
              (gcm_auth key nonce (gcm_counterCrypt key nonce pt) [])) eqn:Hc.
  - apply ConstantTimeCompare_true in Hc. contradiction.
  - reflexivity.
Qed.

(** C1 — the code where the round trip breaks.  The claim asks that
    whatever blob and salt a successful [Encrypt] returns, [Decrypt] with
    them and the same passphrase return the plaintext.  When the salt read
    of [Encrypt] fails, [Encrypt] still returns with no error: a blob sealed
    under the key of the empty salt, and a [nil] salt.  [Decrypt], handed
    that blob and that [nil] salt with the same passphrase, draws a salt of
    its own and derives its key from it; when the tag under that key
    differs from the one in the blob, it returns the authentication error
    and no plaintext. *)
Theorem Encrypt_without_salt_is_not_inverted :
  forall (P : slice) (W : gostring) (w : World) (got got' : bytes) (e : error)
         (rerr : option error) (rd rd' : Reader) (dk : slice),
    rand_Read (entropy w) 16 = (got, Some e, rd) ->
    scrypt_Key some_password [] 32768 8 1 32 = (dk, None) ->
    rand_Read rd 12 = (got', rerr, rd') ->
    Z.of_nat (len P) <= (2 ^ 32 - 2) * 16 ->
    let h := elems dk in
    let nonce := overwrite (repeat x00 12) got' in
    let blob := Some (nonce ++ sealed h nonce (elems P) []) in
    Encrypt P W w = (Returns (blob, nil_slice, None), mkWorld rd' (logged w)) /\
    forall (w2 w3 : World) (s2 : slice) (h2 : gostring),
      createHash nil_slice W w2 = (Returns (s2, h2, None), w3) ->
      gcm_auth h2 nonce (gcm_counterCrypt h nonce (elems P)) []
        <> gcm_auth h nonce (gcm_counterCrypt h nonce (elems P)) [] ->
      Decrypt blob nil_slice W w2 =
        (Returns (nil_slice, Some ErrOpen),
         mkWorld (entropy w3)
                 (logged w3 ++ [("Decrypt - GCM Open Error:"%string, ErrOpen)])).
Proof.
  intros P W w got got' e rerr rd rd' dk Hr Hd Hr' Hsz h nonce blob.
  assert (Hc : createHash nil_slice W w
               = (Returns (nil_slice, h, None), mkWorld rd (logged w))).
  { rewrite createHash_generated, Hr. cbv zeta. cbn [elems nil_slice].
    rewrite Hd. reflexivity. }
  assert (Hn : List.length nonce = 12%nat)
    by (unfold nonce; rewrite overwrite_length, repeat_length; reflexivity).
  split.
  - rewrite (Encrypt_derived _ _ _ _ _ _ Hc). cbn [entropy logged].
    rewrite Hr'. cbv zeta.
    replace (Z.of_nat (len P) >? (2 ^ 32 - 2) * 16) with false
      by (symmetry; rewrite Z.gtb_ltb; apply Z.ltb_ge; exact Hsz).
    reflexivity.
  - intros w2 w3 s2 h2 Hc2 Htag.
    rewrite (Decrypt_derived _ _ _ _ _ _ _ Hc2). unfold blob.
    replace (len (Some (nonce ++ sealed h nonce (elems P) [])) <? 12)%nat with false
      by (symmetry; apply Nat.ltb_ge; unfold len; cbn [elems];
          rewrite length_app; lia).
    cbn [option_map].
    rewrite firstn_exact, skipn_exact by (symmetry; exact Hn).
    rewrite Open_other_key by (assumption || exact Hsz). reflexivity.
Qed.

(** ** Further properties of the cryptographic layer *)

(** X1 — the salt [Encrypt] hands out.  After a successful [Encrypt] the
    salt is either [nil], and then the salt read had reported an error, or
    exactly 16 bytes: the zeroed buffer with what the read copied over its
    front. *)
Theorem Encrypt_salt_is_nil_or_16_bytes :
  forall (P : slice) (W : gostring) (w we : World) (blob salt : slice),
    Encrypt P W w = (Returns (blob, salt, None), we) ->
    match salt with
    | None => exists got e rd, rand_Read (entropy w) 16 = (got, Some e, rd)
    | Some s =>
        List.length s = 16%nat /\
        exists got rd,
          rand_Read (entropy w) 16 = (got, None, rd) /\
          s = overwrite (repeat x00 16) got
    end.
Proof.
  intros P W w we blob salt H.
  destruct (Encrypt_success _ _ _ _ _ _ H)
    as (h & w1 & got' & rerr & rd' & Hc & _).
  rewrite createHash_generated in Hc.
  destruct (rand_Read (entropy w) 16) as [[got [e|]] rd]; cbv zeta in Hc.
  - destruct (scrypt_Key some_password (elems nil_slice) 32768 8 1 32)
      as [dk [e'|]]; [discriminate Hc|].
    injection Hc as Hs _ _. subst salt. cbn. eauto.
  - set (s0 := overwrite (repeat x00 16) got) in *.
    destruct (scrypt_Key some_password (elems (Some s0)) 32768 8 1 32)
      as [dk [e'|]]; [discriminate Hc|].
    injection Hc as Hs _ _. subst salt. split.
    + unfold s0. rewrite overwrite_length, repeat_length. reflexivity.
    + exists got, rd. split; reflexivity.
Qed.

(** [Open] on a payload whose last 16 bytes are not the tag of the rest. *)
Lemma Open_bad_tag key dst nonce body tag' w :
  List.length nonce = 12%nat ->
  List.length tag' = 16%nat ->
  tag' <> gcm_auth key nonce body [] ->
  Open (gcm_of key) dst (Some nonce) (Some (body ++ tag')) nil_slice w =
  (Returns (nil_slice, Some ErrOpen), w).
Proof.
  intros Hn Ht Hne.
  assert (Hlen : len (Some (body ++ tag')) = (List.length body + 16)%nat)
    by (unfold len; cbn [elems]; rewrite length_app, Ht; reflexivity).
  unfold Open, gcm_of, raise, ret, gcm_max_plaintext, nil_slice, BlockSize.
  cbn [gcm_nonceSize gcm_tagSize gcm_cipher block_key].
  change gcmStandardNonceSize with 12%nat. change gcmTagSize with 16%nat.
  rewrite Hlen.
  replace (len (Some nonce)) with 12%nat by (unfold len; simpl; lia).
  cbn [Nat.eqb negb].
  replace (List.length body + 16 <? 16)%nat with false
    by (symmetry; apply Nat.ltb_ge; lia).
  destruct (Z.of_nat (List.length body + 16) >? (2 ^ 32 - 2) * Z.of_nat 16 + Z.of_nat 16);
    [reflexivity|].
  replace (List.length body + 16 - 16)%nat with (List.length body) by lia.
  cbn [elems].
  rewrite firstn_exact, skipn_exact by reflexivity.
  rewrite firstn_all2 by (rewrite auth_length; unfold gcmTagSize; lia).
  destruct (ConstantTimeCompare (gcm_auth key nonce body []) tag') eqn:Hc.
  - apply ConstantTimeCompare_true in Hc. symmetry in Hc. contradiction.
  - reflexivity.
Qed.

(** X2 — a changed tag is caught.  Take the blob of a successful [Encrypt]
    and put any other 16 bytes in place of its last 16: [Decrypt] with the
    salt that came with the blob returns the authentication error and a
    [nil] plaintext, and logs it. *)
Theorem Decrypt_rejects_modified_tag :
  forall (P : slice) (W1 W2 : gostring) (w we : World) (blob salt tag' : bytes),
    Encrypt P W1 w = (Returns (Some blob, Some salt, None), we) ->
    List.length tag' = 16%nat ->
    tag' <> skipn (List.length blob - 16) blob ->
    forall w2 : World,
      Decrypt (Some (firstn (List.length blob - 16) blob ++ tag')) (Some salt) W2 w2 =
      (Returns (nil_slice, Some ErrOpen),
       mkWorld (entropy w2)
               (logged w2 ++ [("Decrypt - GCM Open Error:"%string, ErrOpen)])).
Proof.
  intros P W1 W2 w we blob salt tag' H Ht Hne w2.
  destruct (Encrypt_success _ _ _ _ _ _ H)
    as (h & w1 & got & rerr & rd & Hc & Hr & Hsz & Hblob & Hwe).
  pose proof (createHash_replay _ _ _ _ _ Hc W2 w2) as Hc2.
  set (nonce := overwrite (repeat x00 12) got) in *.
  assert (Hn : List.length nonce = 12%nat)
    by (unfold nonce; rewrite overwrite_length, repeat_length; reflexivity).
  injection Hblob as Hblob.
  set (ct := gcm_counterCrypt h nonce (elems P)) in *.
  assert (Hb : blob = (nonce ++ ct) ++ gcm_auth h nonce ct [])
    by (rewrite <- app_assoc; exact Hblob).
  assert (Hcut : (List.length blob - 16 = List.length (nonce ++ ct))%nat)
    by (rewrite Hb, length_app, auth_length; unfold gcmTagSize; lia).
  rewrite Hcut in *. rewrite Hb in Hne |- *.
  rewrite firstn_exact by reflexivity.
  rewrite skipn_exact in Hne by reflexivity.
  rewrite (Decrypt_derived _ _ _ _ _ _ _ Hc2).
  replace (len (Some ((nonce ++ ct) ++ tag')) <? 12)%nat with false
    by (symmetry; apply Nat.ltb_ge; unfold len; cbn [elems];
        rewrite !length_app; lia).
  cbn [option_map]. rewrite <- app_assoc.
  rewrite firstn_exact, skipn_exact by (symmetry; exact Hn).
  rewrite Open_bad_tag by assumption. reflexivity.
Qed.

(** X3 — a blob with a nonce but no room for a tag.  A blob of 12 to 27
    bytes passes the split and is turned down by [Open]: once the key is
    derived, [Decrypt] returns the authentication error with a [nil]
    plaintext; it does not panic. *)
Theorem Decrypt_blob_without_room_for_tag :
  forall (data salt : slice) (pass : gostring) (w w1 : World) (s : slice) (h : gostring),
    (12 <= len data < 28)%nat ->
    createHash salt pass w = (Returns (s, h, None), w1) ->
    Decrypt data salt pass w =
    (Returns (nil_slice, Some ErrOpen),
     mkWorld (entropy w1)
             (logged w1 ++ [("Decrypt - GCM Open Error:"%string, ErrOpen)])).
Proof.
  intros data salt pass w w1 s h [Hlo Hhi] Hc.
  rewrite (Decrypt_derived _ _ _ _ _ _ _ Hc).
  replace (len data <? 12)%nat with false by (symmetry; apply Nat.ltb_ge; exact Hlo).
  destruct data as [d|]; [|unfold len in Hlo; simpl in Hlo; lia].
  unfold len in Hlo, Hhi. cbn [elems] in Hlo, Hhi. cbn [option_map].
  unfold Open, gcm_of, raise, ret, nil_slice.
  cbn [gcm_nonceSize gcm_tagSize gcm_cipher block_key].
  change gcmStandardNonceSize with 12%nat. change gcmTagSize with 16%nat.
  replace (len (Some (firstn 12 d))) with 12%nat
    by (unfold len; cbn [elems]; rewrite length_firstn; lia).
  cbn [Nat.eqb negb].
  replace (len (Some (skipn 12 d)) <? 16)%nat with true
    by (symmetry; apply Nat.ltb_lt; unfold len; cbn [elems];
        rewrite length_skipn; lia).
  reflexivity.
Qed.

(** X4 — [Decrypt] with a salt reads no entropy.  However the call ends,
    with a plaintext, an error or a panic, the entropy source is as it was
    before. *)
Theorem Decrypt_with_salt_reads_no_entropy :
  forall (data : slice) (salt : bytes) (pass : gostring) (w we : World) r,
    Decrypt data (Some salt) pass w = (r, we) ->
    entropy we = entropy w.
Proof.
  intros data salt pass w we r H.
  pose proof (createHash_supplied salt pass w) as Hc.
  destruct (scrypt_Key some_password salt 32768 8 1 32) as [dk [e|]].
  - rewrite (Decrypt_underived _ _ _ _ _ _ _ _ Hc) in H.
    injection H as _ Hw. subst we. reflexivity.
  - rewrite (Decrypt_derived _ _ _ _ _ _ _ Hc) in H.
    destruct (len data <? 12)%nat.
    { injection H as _ Hw. subst we. reflexivity. }
    destruct (Open_cases (elems dk) (option_map (firstn 12) data)
                         (option_map (skipn 12) data) w)
      as (r0 & Hopen & [[Hr0 _]|[[Hr0 _]|(body & _ & _ & Hr0)]]);
      rewrite Hopen in H; subst r0; injection H as _ Hw; subst we; reflexivity.
Qed.

(** X5 — every outcome of [Encrypt].  [Encrypt] returns an error only when
    the derivation does, and then with a [nil] blob and a [nil] salt; it
    panics only on a plaintext beyond GCM's limit of [(2^32 - 2) * 16]
    bytes; in every other case it returns a blob, the salt of the
    derivation and no error. *)
Theorem Encrypt_outcomes :
  forall (P : slice) (W : gostring) (w : World),
  exists (s : slice) (h : gostring) (err : option error) (w1 : World) r (we : World),
    createHash nil_slice W w = (Returns (s, h, err), w1) /\
    Encrypt P W w = (r, we) /\
    match err with
    | Some e => r = Returns (nil_slice, nil_slice, Some e)
    | None =>
        if Z.of_nat (len P) >? (2 ^ 32 - 2) * 16
        then r = Panics PanicMessageTooLarge
        else exists blob : bytes, r = Returns (Some blob, s, None)
    end.
Proof.
  intros P W w.
  destruct (createHash_returns nil_slice W w) as (s & h & [e|] & w1 & Hc).
  - exists s, h, (Some e), w1. do 2 eexists. split; [exact Hc|].
    split; [exact (Encrypt_underived _ _ _ _ _ _ _ Hc)|reflexivity].
  - exists s, h, None, w1.
    rewrite (Encrypt_derived _ _ _ _ _ _ Hc).
    destruct (rand_Read (entropy w1) 12) as [[got rerr] rd]. cbv zeta.
    destruct (Z.of_nat (len P) >? (2 ^ 32 - 2) * 16).
    + do 2 eexists. split; [exact Hc|]. split; reflexivity.
    + do 2 eexists. split; [exact Hc|]. split; [reflexivity|]. eauto.
Qed.

(** ** Properties of the file-oriented functions *)

Lemma gostring_eqb_refl (a : gostring) : gostring_eqb a a = true.
Proof. unfold gostring_eqb. destruct (list_eq_dec byte_eq_dec a a); congruence. Qed.

Lemma gostring_eqb_neq (a b : gostring) : a <> b -> gostring_eqb a b = false.
Proof. unfold gostring_eqb. destruct (list_eq_dec byte_eq_dec a b); congruence. Qed.

Lemma drop_handle_head (name : gostring) (l : list gostring) :
  drop_handle name (name :: l) = l.
Proof. cbn [drop_handle]. rewrite gostring_eqb_refl. reflexivity. Qed.

Lemma ext_3dfx_neq_salt (file : gostring) : file ++ ext_salt <> file ++ ext_3dfx.
Proof. intros H. apply app_inv_head in H. discriminate H. Qed.

Ltac fs_simpl :=
  cbn [fs rng slog open_files read_result create_fault write_fault
       set_file set_open fst snd entropy logged] in *.

(** X6 — [EncryptFile] with a destination.  When the source file can be
    read and a non-empty [to] is given, [EncryptFile] returns [nil] and has
    done nothing: no file is created or written, no entropy is read,
    nothing is logged. *)
Theorem EncryptFile_with_destination_does_nothing :
  forall (file from to passphrase : gostring) (s : Sys) (data : slice),
    to <> [] ->
    read_result (fs s) (from ++ file) = (data, None) ->
    EncryptFile file from to passphrase s = (Returns None, s).
Proof.
  intros file from to passphrase s data Hto Hread.
  unfold EncryptFile, bindF, ioutil_ReadFile, retF. rewrite Hread.
  destruct to as [|c to']; [contradiction|reflexivity].
Qed.

(** X7 — a failed [DecryptFile] empties its destination.  The destination
    is created before the blob is decrypted.  So whenever it can be
    created and [DecryptFile] does not return [nil] (a derivation or
    authentication error, or a panic on a short or unreadable blob), the
    destination is left as an empty file, whatever it held before. *)
Theorem DecryptFile_failure_empties_destination :
  forall (file from to passphrase : gostring) (s s' : Sys) r,
    let toFile := match to with
                  | _ :: _ => to ++ file
                  | [] => file
                  end in
    create_fault (fs s) toFile = None ->
    DecryptFile file from to passphrase s = (r, s') ->
    r <> Returns None ->
    read_result (fs s') toFile = (Some [], None).
Proof.
  intros file from to passphrase s s' r toFile Hcreate H Hr.
  unfold DecryptFile, bindF, ioutil_ReadFile, os_Create, defer, call,
    log_PrintlnF, File_Write, File_Close, retF in H.
  fold toFile in H.
  destruct (read_result (fs s) (from ++ file ++ ext_3dfx)) as [data [e1|]];
    fs_simpl;
    destruct (read_result (fs s) (from ++ file ++ ext_salt)) as [salt [e2|]];
    fs_simpl; rewrite Hcreate in H; fs_simpl;
    match type of H with
    | context [Decrypt ?d ?sl ?p ?w0] =>
        destruct (Decrypt d sl p w0) as [[[pt [e|]]|p0] w1]
    end;
    fs_simpl;
    try (destruct (write_fault (fs s) toFile) as [[n ew]|]; fs_simpl);
    apply pair_equal_spec in H; destruct H as [Hres Hs]; subst r s'; fs_simpl;
    try (exfalso; apply Hr; reflexivity);
    rewrite gostring_eqb_refl; reflexivity.
Qed.

Ltac split_run H :=
  apply pair_equal_spec in H; destruct H as [? ?]; subst; fs_simpl.

Ltac unfold_files H :=
  unfold EncryptToFile, DecryptFromFile, EncryptFile, DecryptFile, bindF,
    ioutil_ReadFile, os_Create, defer, call, log_PrintlnF, File_Write,
    File_Close, retF in H.

Ltac closed := repeat rewrite drop_handle_head; reflexivity.

(** X8 — every file that is opened is closed.  Each of the four functions
    leaves the set of open files as it found it, on every path: success,
    error, and panic inside [Encrypt] or [Decrypt] (the deferred [Close]
    still runs). *)
Theorem file_functions_close_what_they_open :
  (forall (file to : gostring) (data : slice) (passphrase : gostring) (s s' : Sys) r,
      EncryptToFile file to data passphrase s = (r, s') ->
      open_files (fs s') = open_files (fs s)) /\
  (forall (file : gostring) (salt : slice) (passphrase : gostring) (s s' : Sys) r,
      DecryptFromFile file salt passphrase s = (r, s') ->
      open_files (fs s') = open_files (fs s)) /\
  (forall (file from to passphrase : gostring) (s s' : Sys) r,
      EncryptFile file from to passphrase s = (r, s') ->
      open_files (fs s') = open_files (fs s)) /\
  (forall (file from to passphrase : gostring) (s s' : Sys) r,
      DecryptFile file from to passphrase s = (r, s') ->
      open_files (fs s') = open_files (fs s)).
Proof.
  repeat split.
  - intros file to data passphrase s s' r H. unfold_files H.
    destruct (create_fault (fs s) file) as [e|]; fs_simpl.
    + split_run H. reflexivity.
    + destruct (Encrypt data passphrase (mkWorld (rng s) []))
        as [[[[c sl] [e|]]|p] w1]; fs_simpl;
        try (destruct (write_fault (fs s) file) as [[n ew]|]; fs_simpl);
        split_run H; closed.
  - intros file salt passphrase s s' r H. unfold_files H.
    destruct (read_result (fs s) file) as [data [e1|]]; fs_simpl;
      match type of H with
      | context [Decrypt ?d ?sl ?p ?w0] =>
          destruct (Decrypt d sl p w0) as [[[pt [e|]]|p0] w1]
      end; fs_simpl; split_run H; reflexivity.
  - intros file from to passphrase s s' r H. unfold_files H.
    destruct (read_result (fs s) (from ++ file)) as [data [e1|]]; fs_simpl.
    { split_run H. reflexivity. }
    destruct to as [|c to']; [|split_run H; reflexivity].
    destruct (create_fault (fs s) (file ++ ext_3dfx)) as [e|]; fs_simpl.
    { split_run H. reflexivity. }
    destruct (Encrypt data passphrase (mkWorld (rng s) []))
      as [[[[c sl] [e|]]|p] w1]; fs_simpl; try (split_run H; closed).
    destruct (write_fault (fs s) (file ++ ext_3dfx)) as [[n ew]|]; fs_simpl;
      (destruct (create_fault (fs s) (file ++ ext_salt)) as [e|]; fs_simpl;
       [split_run H; closed|]);
      (destruct (write_fault (fs s) (file ++ ext_salt)) as [[n' ew']|]; fs_simpl);
      split_run H; closed.
  - intros file from to passphrase s s' r H. unfold_files H.
    set (toFile := match to with
                   | _ :: _ => to ++ file
                   | [] => file
                   end) in *.
    destruct (read_result (fs s) (from ++ file ++ ext_3dfx)) as [data [e1|]];
      fs_simpl;
      destruct (read_result (fs s) (from ++ file ++ ext_salt)) as [salt [e2|]];
      fs_simpl;
      destruct (create_fault (fs s) toFile) as [ec|]; fs_simpl;
      match type of H with
      | context [Decrypt ?d ?sl ?p ?w0] =>
          destruct (Decrypt d sl p w0) as [[[pt [e|]]|p0] w1]
      end; fs_simpl;
      try (destruct (write_fault (fs s) toFile) as [[n ew]|]; fs_simpl);
      split_run H; closed.
Qed.


(** X10 — a failed write goes unreported.  [EncryptToFile] does not look at
    what [Write] returns: when the write stores only the first [n] bytes of
    the blob and fails, [EncryptToFile] still returns the salt and no
    error, and the file holds those [n] bytes. *)
Theorem EncryptToFile_hides_failed_write :
  forall (file to : gostring) (data : slice) (passphrase : gostring) (s : Sys)
         (blob salt : slice) (w1 : World) (n : nat) (e : ioerror),
    create_fault (fs s) file = None ->
    write_fault (fs s) file = Some (n, e) ->
    Encrypt data passphrase (mkWorld (rng s) []) = (Returns (blob, salt, None), w1) ->
    exists s' : Sys,
      EncryptToFile file to data passphrase s = (Returns (salt, None), s') /\
      read_result (fs s') file = (Some (firstn n (elems blob)), None).
Proof.
  intros file to data passphrase s blob salt w1 n e Hc Hw He.
  unfold EncryptToFile, bindF, os_Create, defer, call, File_Write, File_Close, retF.
  rewrite Hc. fs_simpl. rewrite He. fs_simpl. rewrite Hw. fs_simpl.
  eexists. split; [reflexivity|]. fs_simpl.
  rewrite !gostring_eqb_refl. reflexivity.
Qed.

(** X11 — a failed [EncryptToFile] leaves an empty file.  The file is
    created before the data is encrypted: whenever it can be created and
    [EncryptToFile] does not return a [nil] error (the derivation fails, or
    [Encrypt] panics), [file] is left empty, whatever it held before. *)
Theorem EncryptToFile_failure_leaves_empty_file :
  forall (file to : gostring) (data : slice) (passphrase : gostring) (s s' : Sys) r,
    create_fault (fs s) file = None ->
    EncryptToFile file to data passphrase s = (r, s') ->
    (forall salt : slice, r <> Returns (salt, None)) ->
    read_result (fs s') file = (Some [], None).
Proof.
  intros file to data passphrase s s' r Hc H Hr. unfold_files H.
  rewrite Hc in H. fs_simpl.
  destruct (Encrypt data passphrase (mkWorld (rng s) []))
    as [[[[c sl] [e|]]|p0] w1]; fs_simpl;
    try (destruct (write_fault (fs s) file) as [[n ew]|]; fs_simpl);
    split_run H;
    try (exfalso; eapply Hr; reflexivity);
    rewrite gostring_eqb_refl; reflexivity.
Qed.

(** X12 — [DecryptFromFile] on a file it cannot use.  A failed read is
    only logged, and the function goes on with what the read returned.  So
    when the file cannot be read (the data is [nil]) or holds fewer than 12
    bytes, and the key is derived, [DecryptFromFile] panics on the slice
    bounds; the read error is in the log, not in the result. *)
Theorem DecryptFromFile_unusable_file_panics :
  forall (file : gostring) (salt : slice) (passphrase : gostring) (s : Sys)
         (data : slice) (err : option ioerror) (s0 : slice) (h : gostring) (w1 : World),
    read_result (fs s) file = (data, err) ->
    (len data < 12)%nat ->
    createHash salt passphrase (mkWorld (rng s) []) = (Returns (s0, h, None), w1) ->
    exists s' : Sys,
      DecryptFromFile file salt passphrase s = (Panics PanicSliceBounds, s') /\
      fs s' = fs s /\
      (forall e, err = Some e ->
                 In ("Decrypt from File - Read File Error:"%string, e) (slog s')).
Proof.
  intros file salt passphrase s data err s0 h w1 Hread Hshort Hc.
  unfold DecryptFromFile, bindF, ioutil_ReadFile, call, log_PrintlnF, retF.
  rewrite Hread.
  pose proof (Decrypt_derived data _ _ _ _ _ _ Hc) as Hd.
  apply Nat.ltb_lt in Hshort. rewrite Hshort in Hd.
  destruct err as [e|]; fs_simpl; rewrite Hd; fs_simpl;
    (eexists; split; [reflexivity|]; fs_simpl; split; [reflexivity|]);
    intros e' He'; [|discriminate He'].
  injection He' as <-. apply in_or_app. left. apply in_or_app. right.
  left. reflexivity.
Qed.

(** The bytes of the salt [Encrypt] returned, handed back as a salt,
    re-derive the key [Encrypt] used; so does the empty salt for a [nil]
    one. *)
Lemma createHash_replay_bytes W w salt h w1 :
  createHash nil_slice W w = (Returns (salt, h, None), w1) ->
  forall W2 w2,
    createHash (Some (elems salt)) W2 w2 = (Returns (Some (elems salt), h, None), w2).
Proof.
  intros H W2 w2. rewrite createHash_generated in H.
  destruct (rand_Read (entropy w) 16) as [[got rerr] rd].
  cbv zeta in H. rewrite createHash_supplied.
  match type of H with
  | context [scrypt_Key ?pw ?sl ?cN ?cr ?cp ?n] =>
      destruct (scrypt_Key pw sl cN cr cp n) as [dk [e'|]] eqn:Hd
  end; [discriminate H|].
  injection H as Hs Hh Hw. subst salt h. cbn [repeat] in Hd |- *.
  rewrite Hd. reflexivity.
Qed.

Lemma roundtrip_salt_bytes P W1 W2 w blob salt we :
  Encrypt P W1 w = (Returns (blob, salt, None), we) ->
  forall w2, exists pt,
    Decrypt (Some (elems blob)) (Some (elems salt)) W2 w2 = (Returns (pt, None), w2) /\
    elems pt = elems P.
Proof.
  intros H w2.
  destruct (Encrypt_success _ _ _ _ _ _ H)
    as (h & w1 & got & rerr & rd & Hc & Hr & Hsz & Hblob & Hwe).
  pose proof (createHash_replay_bytes _ _ _ _ _ Hc W2 w2) as Hc2.
  set (nonce := overwrite (repeat x00 12) got) in *.
  assert (Hn : List.length nonce = 12%nat)
    by (unfold nonce; rewrite overwrite_length, repeat_length; reflexivity).
  rewrite (Decrypt_derived _ _ _ _ _ _ _ Hc2). subst blob. cbn [elems].
  replace (len (Some (nonce ++ sealed h nonce (elems P) [])) <? 12)%nat with false
    by (symmetry; apply Nat.ltb_ge; unfold len; cbn [elems];
        rewrite length_app; lia).
  cbn [option_map].
  rewrite firstn_exact, skipn_exact by (symmetry; exact Hn).
  rewrite Open_sealed by (assumption || exact Hsz).
  exists (sliceForAppend nil_slice (elems P)). split; [reflexivity|].
  apply elems_sliceForAppend_nil.
Qed.

Lemma Sys_same (s : Sys) : mkSys (rng s) (fs s) (slog s ++ []) = s.
Proof. destruct s as [r f l]. cbn. rewrite app_nil_r. reflexivity. Qed.

(** X13 — round trip through one file.  When [EncryptToFile] returns a
    salt and no error, and the write to [file] did not fail, then
    [DecryptFromFile] on a file with the same contents, with that salt and
    any passphrase at all, returns the bytes that were encrypted, and
    changes nothing. *)
Theorem DecryptFromFile_EncryptToFile_roundtrip :
  forall (file to : gostring) (data : slice) (pass1 pass2 : gostring)
         (s s1 s2 : Sys) (salt : bytes),
    write_fault (fs s) file = None ->
    EncryptToFile file to data pass1 s = (Returns (Some salt, None), s1) ->
    read_result (fs s2) file = read_result (fs s1) file ->
    exists pt : slice,
      DecryptFromFile file (Some salt) pass2 s2 = (Returns (pt, None), s2) /\
      elems pt = elems data.
Proof.
  intros file to data pass1 pass2 s s1 s2 salt Hw H Hsame.
  unfold_files H.
  destruct (create_fault (fs s) file) as [e|]; fs_simpl; [discriminate H|].
  destruct (Encrypt data pass1 (mkWorld (rng s) []))
    as [[[[c sl] [e|]]|p0] w1] eqn:He; fs_simpl; try discriminate H.
  rewrite Hw in H. fs_simpl.
  apply pair_equal_spec in H. destruct H as [Hres Hs1].
  injection Hres as Hsl. subst sl s1. fs_simpl.
  rewrite !gostring_eqb_refl in Hsame. cbn [app elems fst] in Hsame.
  destruct (roundtrip_salt_bytes _ _ pass2 _ _ _ _ He (mkWorld (rng s2) []))
    as (pt & Hd & Hpt).
  cbn [elems] in Hd.
  exists pt. split; [|exact Hpt].
  unfold DecryptFromFile, bindF, ioutil_ReadFile, call, retF.
  rewrite Hsame. fs_simpl. rewrite Hd. fs_simpl.
  rewrite Sys_same. reflexivity.
Qed.

(** X14 — round trip through the file pair.  [EncryptFile] with an empty
    [to] reads [from + file] and, whatever [from] is, writes the blob to
    [file + ".3dfx"] and the salt to [file + ".salt"].  When it returns
    [nil] and neither write failed, [DecryptFile] with an empty [from], any
    destination it can create and write, and any passphrase at all, returns
    [nil] and leaves in the destination exactly the bytes of the source
    file.  This holds also when the salt read had failed: the salt file is
    then empty, and the empty salt re-derives the key. *)
Theorem DecryptFile_EncryptFile_roundtrip :
  forall (file from to pass1 pass2 : gostring) (s s1 s2 : Sys) (data : slice),
    read_result (fs s) (from ++ file) = (data, None) ->
    write_fault (fs s) (file ++ ext_3dfx) = None ->
    write_fault (fs s) (file ++ ext_salt) = None ->
    EncryptFile file from [] pass1 s = (Returns None, s1) ->
    read_result (fs s2) (file ++ ext_3dfx) = read_result (fs s1) (file ++ ext_3dfx) ->
    read_result (fs s2) (file ++ ext_salt) = read_result (fs s1) (file ++ ext_salt) ->
    let toFile := match to with
                  | _ :: _ => to ++ file
                  | [] => file
                  end in
    create_fault (fs s2) toFile = None ->
    write_fault (fs s2) toFile = None ->
    exists s3 : Sys,
      DecryptFile file [] to pass2 s2 = (Returns None, s3) /\
      read_result (fs s3) toFile = (Some (elems data), None).
Proof.
  intros file from to pass1 pass2 s s1 s2 data Hread Hw3 Hws H Hsame3 Hsames
         toFile Hcreate Hwrite.
  pose proof (gostring_eqb_neq _ _ (ext_3dfx_neq_salt file)) as Hne.
  assert (Hne' : gostring_eqb (file ++ ext_3dfx) (file ++ ext_salt) = false).
  { apply gostring_eqb_neq. intros E. symmetry in E.
    exact (ext_3dfx_neq_salt file E). }
  unfold_files H. rewrite Hread in H. fs_simpl.
  destruct (create_fault (fs s) (file ++ ext_3dfx)) as [e|]; fs_simpl;
    [discriminate H|].
  destruct (Encrypt data pass1 (mkWorld (rng s) []))
    as [[[[c sl] [e|]]|p0] w1] eqn:He; fs_simpl; try discriminate H.
  rewrite Hw3 in H. fs_simpl.
  destruct (create_fault (fs s) (file ++ ext_salt)) as [e|]; fs_simpl;
    [discriminate H|].
  rewrite Hne in H. rewrite Hws in H. fs_simpl.
  apply pair_equal_spec in H. destruct H as [_ Hs1]. subst s1. fs_simpl.
  rewrite ?Hne, ?Hne', ?gostring_eqb_refl in Hsames.
  rewrite ?Hne, ?Hne', ?gostring_eqb_refl in Hsame3.
  cbn [app elems fst] in Hsame3, Hsames.
  destruct (roundtrip_salt_bytes _ _ pass2 _ _ _ _ He (mkWorld (rng s2) []))
    as (pt & Hd & Hpt).
  unfold DecryptFile, bindF, ioutil_ReadFile, os_Create, defer, call,
    log_PrintlnF, File_Write, File_Close, retF.
  cbn [app]. rewrite Hsame3. fs_simpl. rewrite Hsames. fs_simpl.
  fold toFile. rewrite Hcreate. fs_simpl. rewrite Hd. fs_simpl.
  rewrite Hwrite. fs_simpl.
  eexists. split; [reflexivity|]. fs_simpl.
  rewrite !gostring_eqb_refl. cbn [app elems fst]. rewrite Hpt. reflexivity.
Qed.

(** ** The log is only appended to *)

Lemma appends_ret A (a : A) : appends_only (ret a).
Proof. intros r l. unfold ret. cbn. rewrite app_nil_r. reflexivity. Qed.

Lemma appends_raise A (p : panic) : appends_only (raise (A := A) p).
Proof. intros r l. unfold raise. cbn. rewrite app_nil_r. reflexivity. Qed.

Lemma appends_log (prefix : string) (e : error) : appends_only (log_Println prefix e).
Proof. intros r l. reflexivity. Qed.

Lemma appends_read (b : slice) : appends_only (io_ReadFull b).
Proof.
  intros r l. unfold io_ReadFull. cbn [entropy logged].
  destruct (rand_Read r (len b)) as [[got err] rd]. cbn.
  rewrite app_nil_r. reflexivity.
Qed.

Lemma appends_bind A B (m : M A) (k : A -> M B) :
  appends_only m -> (forall a, appends_only (k a)) -> appends_only (bind m k).
Proof.
  intros Hm Hk r l. unfold bind. rewrite (Hm r l).
  destruct (m (mkWorld r [])) as [[a|p] [r' lg]]; cbn [fst snd entropy logged].
  - rewrite (Hk a r' (l ++ lg)), (Hk a r' lg).
    destruct (k a (mkWorld r' [])) as [res [r2 lg2]]. cbn [fst snd entropy logged].
    rewrite app_assoc. reflexivity.
  - reflexivity.
Qed.

Ltac appends :=
  repeat first
    [ apply appends_ret | apply appends_raise | apply appends_log
    | apply appends_read | apply appends_bind | progress cbv beta
    | match goal with
      | |- forall _, appends_only _ => intro
      | |- appends_only (match ?x with _ => _ end) => destruct x
      | |- appends_only (if ?b then _ else _) => destruct b
      end ].

Lemma appends_createHash salt pass : appends_only (createHash salt pass).
Proof. unfold createHash, genSalt. appends. Qed.

Lemma appends_Seal g dst nonce pt data : appends_only (Seal g dst nonce pt data).
Proof. unfold Seal. appends. Qed.

Lemma appends_Open g dst nonce ct data : appends_only (Open g dst nonce ct data).
Proof. unfold Open. appends. Qed.

(** X15 — the log is only appended to.  [Encrypt] and [Decrypt] never read
    or rewrite what is already logged: started with any log, they return
    the same result and use the same entropy as on an empty log, and leave
    the old log in front of what they add. *)
Theorem Encrypt_Decrypt_only_append_to_log :
  (forall (P : slice) (W : gostring), appends_only (Encrypt P W)) /\
  (forall (data salt : slice) (W : gostring), appends_only (Decrypt data salt W)).
Proof.
  split.
  - intros P W. unfold Encrypt. apply appends_bind; [apply appends_createHash|].
    intros [[salt hash] err]. appends. apply appends_Seal.
  - intros data salt W. unfold Decrypt.
    apply appends_bind; [apply appends_createHash|].
    intros [[s0 hash] err]. unfold split_at. appends. apply appends_Open.
Qed.

End Properties.

(** ** The small instance meets the contracts *)

Module ToyFacts.

Lemma xorb_twice (a b : bool) : xorb a (xorb a b) = b.
Proof. destruct a, b; reflexivity. Qed.

Lemma byte_xor_involutive (k x : byte) :
  Toy.byte_xor k (Toy.byte_xor k x) = x.
Proof.
  unfold Toy.byte_xor.
  destruct (Byte.to_bits k) as (k0 & k1 & k2 & k3 & k4 & k5 & k6 & k7).
  destruct (Byte.to_bits x) as (x0 & x1 & x2 & x3 & x4 & x5 & x6 & x7) eqn:Hx.
  rewrite Byte.to_bits_of_bits, !xorb_twice, <- Hx.
  apply Byte.of_bits_to_bits.
Qed.

Lemma derive_length :
  forall pw s N r p n dk,
    0 <= n -> scrypt_Key (Lib := Toy.lib) pw s N r p n = (dk, None) ->
    Z.of_nat (len dk) = n.
Proof.
  intros pw s N r p n dk Hn H.
  change (scrypt_Key (Lib := Toy.lib)) with Toy.derive in H.
  unfold Toy.derive in H.
  injection H as Hdk. subst dk. unfold len. cbn [elems].
  rewrite length_firstn, !length_app, repeat_length. lia.
Qed.

Lemma counterCrypt_length :
  forall k n x,
    List.length (gcm_counterCrypt (Lib := Toy.lib) k n x) = List.length x.
Proof. intros k n x. apply length_map. Qed.

Lemma counterCrypt_involutive :
  forall k n x,
    gcm_counterCrypt (Lib := Toy.lib) k n (gcm_counterCrypt (Lib := Toy.lib) k n x) = x.
Proof.
  intros k n x.
  change (gcm_counterCrypt (Lib := Toy.lib)) with Toy.counterCrypt.
  unfold Toy.counterCrypt. rewrite map_map.
  induction x as [|b x IH]; [reflexivity|].
  cbn [map]. rewrite byte_xor_involutive, IH. reflexivity.
Qed.

Lemma auth_length :
  forall k n c a,
    List.length (gcm_auth (Lib := Toy.lib) k n c a) = gcmTagSize.
Proof.
  intros k n c a.
  change (gcm_auth (Lib := Toy.lib) k n c a) with (Toy.auth k n c a).
  unfold Toy.auth.
  rewrite length_map, length_firstn, length_app, repeat_length.
  unfold gcmTagSize. lia.
Qed.

End ToyFacts.

(** ** The theorems on concrete runs *)

(** "Hello World" under "pass1" with a working entropy source: the blob
    opens again, in a world whose entropy source is exhausted. *)
Lemma Decrypt_Encrypt_roundtrip_witness :
  exists (blob : slice) (we : World (L := Toy.lib)),
    Encrypt (L := Toy.lib) Toy.hello Toy.pass1 Toy.healthy
      = (Returns (blob, Some Toy.salt16, None), we) /\
    exists pt : slice,
      Decrypt (L := Toy.lib) blob (Some Toy.salt16) Toy.pass1 Toy.exhausted
        = (Returns (pt, None), Toy.exhausted) /\
      elems pt = elems Toy.hello.
Proof.
  do 2 eexists. split.
  - vm_compute. reflexivity.
  - eapply (Decrypt_Encrypt_roundtrip (L := Toy.lib)
             ToyFacts.derive_length ToyFacts.counterCrypt_length
             ToyFacts.counterCrypt_involutive ToyFacts.auth_length
             Toy.hello Toy.pass1 Toy.healthy).
    vm_compute. reflexivity.
Defined.

(** The same blob under "pass2". *)
Lemma Decrypt_accepts_wrong_passphrase_witness :
  Toy.pass1 <> Toy.pass2 /\
  exists (blob : slice) (we : World (L := Toy.lib)),
    Encrypt (L := Toy.lib) Toy.hello Toy.pass1 Toy.healthy
      = (Returns (blob, Some Toy.salt16, None), we) /\
    exists pt : slice,
      Decrypt (L := Toy.lib) blob (Some Toy.salt16) Toy.pass2 Toy.exhausted
        = (Returns (pt, None), Toy.exhausted) /\
      elems pt = elems Toy.hello.
Proof.
  assert (Hne : Toy.pass1 <> Toy.pass2) by (vm_compute; discriminate).
  split; [exact Hne|].
  do 2 eexists. split.
  - vm_compute. reflexivity.
  - eapply (Decrypt_accepts_wrong_passphrase (L := Toy.lib)
             ToyFacts.derive_length ToyFacts.counterCrypt_length
             ToyFacts.counterCrypt_involutive ToyFacts.auth_length
             Toy.hello Toy.pass1 Toy.pass2 Toy.healthy _ _ _ Hne).
    vm_compute. reflexivity.
Defined.

(** Two derivations from the same salt, in different worlds. *)
Lemma createHash_deterministic_witness :
  fst (createHash (L := Toy.lib) (Some Toy.salt16) Toy.pass1 Toy.healthy)
    = fst (createHash (L := Toy.lib) (Some Toy.salt16) Toy.pass1 Toy.exhausted) /\
  exists (dk : slice) (err : option error),
    scrypt_Key (Lib := Toy.lib) some_password Toy.salt16 32768 8 1 32 = (dk, err) /\
    fst (createHash (L := Toy.lib) (Some Toy.salt16) Toy.pass1 Toy.healthy)
      = Returns (Some Toy.salt16, elems dk, err) /\
    (err = None -> List.length (elems dk) = 32%nat).
Proof.
  exact (createHash_deterministic (L := Toy.lib) ToyFacts.derive_length
           Toy.salt16 Toy.pass1 Toy.healthy Toy.exhausted).
Defined.

(** The blob for "Hello World" has 39 bytes. *)
Lemma Encrypt_blob_layout_witness :
  exists (blob salt : slice) (we : World (L := Toy.lib)),
    Encrypt (L := Toy.lib) Toy.hello Toy.pass1 Toy.healthy
      = (Returns (blob, salt, None), we) /\
    elems Toy.hello = list_byte_of_string "Hello World" /\
    len blob = 39%nat.
Proof.
  do 3 eexists.
  assert (HP : elems Toy.hello = list_byte_of_string "Hello World") by (vm_compute; reflexivity).
  refine ((fun H => conj H (conj HP
            (proj2 (proj2 (Encrypt_blob_layout (L := Toy.lib)
               ToyFacts.derive_length ToyFacts.counterCrypt_length
               ToyFacts.auth_length
               Toy.hello Toy.pass1 Toy.healthy _ _ _ H)) HP))) _).
  vm_compute. reflexivity.
Defined.

(** The key derived from the 16-byte salt builds the AES-256 cipher, and
    [Encrypt] and [Decrypt] go on with it. *)
Lemma derived_key_selects_AES256_witness :
  exists (s : slice) (h : gostring) (w1 : World (L := Toy.lib)),
    createHash (L := Toy.lib) nil_slice Toy.pass1 Toy.healthy
      = (Returns (s, h, None), w1) /\
    (len (slice_of_string h) = 32%nat /\
     aes_NewCipher (slice_of_string h) = Ok (mkBlock h AES256) /\
     cipher_NewGCM (mkBlock h AES256) = Ok (gcm_of h)) /\
    Encrypt (L := Toy.lib) Toy.hello Toy.pass1 Toy.healthy =
      bind (io_ReadFull (make 12))
           (fun x =>
              let '(nonce, _, _) := x in
              bind (Seal (mkGCM (mkBlock h AES256) 12 16) nonce nonce Toy.hello nil_slice)
                   (fun ciphertext => ret (ciphertext, s, None)))
           w1 /\
    Decrypt (L := Toy.lib) Toy.hello nil_slice Toy.pass1 Toy.healthy =
      bind (split_at Toy.hello 12)
           (fun x =>
              let '(nonce, ciphertext) := x in
              bind (Open (mkGCM (mkBlock h AES256) 12 16)
                         nil_slice nonce ciphertext nil_slice)
                   (fun y =>
                      let '(plaintext, err) := y in
                      match err with
                      | Some e =>
                          bind (log_Println "Decrypt - GCM Open Error:" e)
                               (fun _ => ret (nil_slice, Some e))
                      | None => ret (plaintext, None)
                      end))
           w1.
Proof.
  destruct (derived_key_selects_AES256 (L := Toy.lib)
              ToyFacts.derive_length ToyFacts.auth_length)
    as [H1 [HE [HD _]]].
  do 3 eexists.
  refine ((fun H => conj H (conj (H1 _ _ _ _ _ _ H)
                                 (conj (HE Toy.hello _ _ _ _ _ H)
                                       (HD Toy.hello _ _ _ _ _ _ H)))) _).
  vm_compute. reflexivity.
Defined.

(** The eleven bytes of "Hello World" handed to [Decrypt] as a blob. *)
Lemma Decrypt_short_blob_panics_witness :
  (len Toy.hello < 12)%nat /\
  Decrypt (L := Toy.lib) Toy.hello (Some Toy.salt16) Toy.pass1 Toy.exhausted
    = (Panics PanicSliceBounds, Toy.exhausted).
Proof.
  assert (Hshort : (len Toy.hello < 12)%nat) by (vm_compute; lia).
  split; [exact Hshort|].
  apply (Decrypt_short_blob_panics (L := Toy.lib) ToyFacts.derive_length
           Toy.hello (Some Toy.salt16) Toy.pass1 Toy.exhausted Toy.exhausted
           (Some Toy.salt16)
           (elems (fst (Toy.derive some_password Toy.salt16 32768 8 1 32))) Hshort).
  vm_compute. reflexivity.
Defined.

(** The outcomes of [Decrypt] on that same short blob. *)
Lemma Decrypt_outcomes_witness :
  exists (s : slice) (h : gostring) (err : option error) (w1 : World (L := Toy.lib))
         r (we : World (L := Toy.lib)),
    createHash (L := Toy.lib) (Some Toy.salt16) Toy.pass1 Toy.exhausted
      = (Returns (s, h, err), w1) /\
    Decrypt (L := Toy.lib) Toy.hello (Some Toy.salt16) Toy.pass1 Toy.exhausted = (r, we) /\
    match err with
    | Some e => r = Returns (nil_slice, Some e)
    | None =>
        if (len Toy.hello <? 12)%nat
        then r = Panics PanicSliceBounds
        else r = Returns (nil_slice, Some ErrOpen) \/
             (exists pt : slice, r = Returns (pt, None) /\
                                 authentic (L := Toy.lib) h Toy.hello pt)
    end.
Proof.
  exact (Decrypt_outcomes (L := Toy.lib) ToyFacts.derive_length ToyFacts.auth_length
           Toy.hello (Some Toy.salt16) Toy.pass1 Toy.exhausted).
Defined.

(** An exhausted entropy source: [genSalt] reports it, [createHash] does
    not. *)
Lemma createHash_drops_salt_error_witness :
  rand_Read (Lib := Toy.lib) (entropy Toy.exhausted) 16
    = ([], Some (ErrReader "EOF"), []) /\
  genSalt (L := Toy.lib) 16 Toy.exhausted
    = (Returns (nil_slice, Some (ErrReader "EOF")), Toy.exhausted) /\
  exists key : gostring,
    createHash (L := Toy.lib) nil_slice Toy.pass1 Toy.exhausted
      = (Returns (nil_slice, key, None), Toy.exhausted).
Proof.
  assert (Hr : rand_Read (Lib := Toy.lib) (entropy Toy.exhausted) 16
               = ([], Some (ErrReader "EOF"), [])) by (vm_compute; reflexivity).
  split; [exact Hr|].
  destruct (createHash_drops_salt_error (L := Toy.lib) Toy.pass1 Toy.exhausted
              [] (ErrReader "EOF") []
              (fst (Toy.derive some_password [] 32768 8 1 32)) Hr eq_refl)
    as [Hg Hc].
  split; [exact Hg|]. eexists. exact Hc.
Defined.

(** A source that fails the nonce read after five bytes: the blob starts
    with those five bytes and seven zeros, and no error is returned. *)
Lemma Encrypt_drops_nonce_error_witness :
  rand_Read (Lib := Toy.lib) [(firstn 5 Toy.nonce12, Some (ErrReader "unexpected EOF"))] 12
    = (firstn 5 Toy.nonce12, Some (ErrReader "unexpected EOF"), []) /\
  exists (blob : bytes) (we : World (L := Toy.lib)),
    Encrypt (L := Toy.lib) Toy.hello Toy.pass1 Toy.failing_nonce
      = (Returns (Some blob, Some Toy.salt16, None), we) /\
    firstn 12 blob = firstn 5 Toy.nonce12 ++ repeat x00 7.
Proof.
  assert (Hr : rand_Read (Lib := Toy.lib)
                 [(firstn 5 Toy.nonce12, Some (ErrReader "unexpected EOF"))] 12
               = (firstn 5 Toy.nonce12, Some (ErrReader "unexpected EOF"), []))
    by (vm_compute; reflexivity).
  split; [exact Hr|].
  assert (Hc : createHash (L := Toy.lib) nil_slice Toy.pass1 Toy.failing_nonce
               = (Returns (Some Toy.salt16,
                           elems (fst (Toy.derive some_password Toy.salt16 32768 8 1 32)),
                           None),
                  mkWorld (L := Toy.lib)
                    [(firstn 5 Toy.nonce12, Some (ErrReader "unexpected EOF"))] []))
    by (vm_compute; reflexivity).
  assert (Hsz : Z.of_nat (len Toy.hello) <= (2 ^ 32 - 2) * 16) by (vm_compute; discriminate).
  pose proof (Encrypt_drops_nonce_error (L := Toy.lib) ToyFacts.derive_length
                Toy.hello Toy.pass1 Toy.failing_nonce _ _ _ _ _ _ Hc Hr Hsz) as H.
  cbv zeta in H.
  do 2 eexists. split; [exact H|]. vm_compute. reflexivity.
Defined.

(** A blob sealed while the entropy source was exhausted, handed back with
    its [nil] salt once the source works again: rejected. *)
Lemma Encrypt_without_salt_is_not_inverted_witness :
  rand_Read (Lib := Toy.lib) (entropy Toy.exhausted) 16
    = ([], Some (ErrReader "EOF"), []) /\
  exists (blob : slice) (we w3 : World (L := Toy.lib)),
    Encrypt (L := Toy.lib) Toy.hello Toy.pass1 Toy.exhausted
      = (Returns (blob, nil_slice, None), we) /\
    Decrypt (L := Toy.lib) blob nil_slice Toy.pass1 Toy.healthy
      = (Returns (nil_slice, Some ErrOpen), w3).
Proof.
  assert (Hr : rand_Read (Lib := Toy.lib) (entropy Toy.exhausted) 16
               = ([], Some (ErrReader "EOF"), [])) by (vm_compute; reflexivity).
  assert (Hr' : rand_Read (Lib := Toy.lib) [] 12
                = ([], Some (ErrReader "EOF"), [])) by (vm_compute; reflexivity).
  assert (Hsz : Z.of_nat (len Toy.hello) <= (2 ^ 32 - 2) * 16)
    by (vm_compute; discriminate).
  split; [exact Hr|].
  destruct (Encrypt_without_salt_is_not_inverted (L := Toy.lib)
              ToyFacts.derive_length ToyFacts.counterCrypt_length
              ToyFacts.auth_length
              Toy.hello Toy.pass1 Toy.exhausted [] [] (ErrReader "EOF")
              (Some (ErrReader "EOF")) [] []
              (fst (Toy.derive some_password [] 32768 8 1 32))
              Hr eq_refl Hr' Hsz) as [He Hd].
  do 3 eexists. split; [exact He|].
  apply (Hd Toy.healthy
            (mkWorld (L := Toy.lib) [(Toy.nonce12, None)] [])
            (Some Toy.salt16)
            (elems (fst (Toy.derive some_password Toy.salt16 32768 8 1 32)))).
  - vm_compute. reflexivity.
  - vm_compute. discriminate.
Defined.

(** ** The further properties on concrete runs *)

Lemma Encrypt_salt_is_nil_or_16_bytes_witness :
  exists (blob : slice) (we : World (L := Toy.lib)),
    Encrypt (L := Toy.lib) Toy.hello Toy.pass1 Toy.healthy
      = (Returns (blob, Some Toy.salt16, None), we) /\
    List.length Toy.salt16 = 16%nat.
Proof.
  do 2 eexists.
  refine ((fun H => conj H
            (proj1 (Encrypt_salt_is_nil_or_16_bytes (L := Toy.lib)
                      ToyFacts.derive_length
                      Toy.hello Toy.pass1 Toy.healthy _ _ (Some Toy.salt16) H))) _).
  vm_compute. reflexivity.
Defined.

(** The blob for "Hello World" with sixteen zero bytes in place of its
    tag. *)
Lemma Decrypt_rejects_modified_tag_witness :
  exists (blob : bytes) (we w3 : World (L := Toy.lib)),
    Encrypt (L := Toy.lib) Toy.hello Toy.pass1 Toy.healthy
      = (Returns (Some blob, Some Toy.salt16, None), we) /\
    repeat x00 16 <> skipn (List.length blob - 16) blob /\
    Decrypt (L := Toy.lib)
            (Some (firstn (List.length blob - 16) blob ++ repeat x00 16))
            (Some Toy.salt16) Toy.pass2 Toy.exhausted
      = (Returns (nil_slice, Some ErrOpen), w3).
Proof.
  do 3 eexists.
  refine ((fun H Hne => conj H (conj Hne
            (Decrypt_rejects_modified_tag (L := Toy.lib)
               ToyFacts.derive_length ToyFacts.auth_length
               Toy.hello Toy.pass1 Toy.pass2 Toy.healthy _ _ Toy.salt16
               (repeat x00 16) H eq_refl Hne Toy.exhausted))) _ _).
  - vm_compute. reflexivity.
  - vm_compute. discriminate.
Defined.

(** Sixteen bytes handed to [Decrypt] as a blob. *)
Lemma Decrypt_blob_without_room_for_tag_witness :
  (12 <= len (Some Toy.salt16) < 28)%nat /\
  exists w3 : World (L := Toy.lib),
    Decrypt (L := Toy.lib) (Some Toy.salt16) (Some Toy.salt16) Toy.pass1 Toy.exhausted
      = (Returns (nil_slice, Some ErrOpen), w3).
Proof.
  assert (Hlen : (12 <= len (Some Toy.salt16) < 28)%nat) by (vm_compute; lia).
  split; [exact Hlen|]. eexists.
  apply (Decrypt_blob_without_room_for_tag (L := Toy.lib) ToyFacts.derive_length
           (Some Toy.salt16) (Some Toy.salt16) Toy.pass1 Toy.exhausted Toy.exhausted
           (Some Toy.salt16)
           (elems (fst (Toy.derive some_password Toy.salt16 32768 8 1 32))) Hlen).
  vm_compute. reflexivity.
Defined.

Lemma Decrypt_with_salt_reads_no_entropy_witness :
  exists r (we : World (L := Toy.lib)),
    Decrypt (L := Toy.lib) Toy.hello (Some Toy.salt16) Toy.pass1 Toy.healthy = (r, we) /\
    entropy we = entropy Toy.healthy.
Proof.
  do 2 eexists.
  refine ((fun H => conj H
            (Decrypt_with_salt_reads_no_entropy (L := Toy.lib)
               ToyFacts.derive_length ToyFacts.auth_length
               Toy.hello Toy.salt16 Toy.pass1 Toy.healthy _ _ H)) _).
  vm_compute. reflexivity.
Defined.

Lemma Encrypt_outcomes_witness :
  exists (s : slice) (h : gostring) (err : option error) (w1 : World (L := Toy.lib))
         r (we : World (L := Toy.lib)),
    createHash (L := Toy.lib) nil_slice Toy.pass1 Toy.healthy = (Returns (s, h, err), w1) /\
    Encrypt (L := Toy.lib) Toy.hello Toy.pass1 Toy.healthy = (r, we) /\
    match err with
    | Some e => r = Returns (nil_slice, nil_slice, Some e)
    | None =>
        if Z.of_nat (len Toy.hello) >? (2 ^ 32 - 2) * 16
        then r = Panics PanicMessageTooLarge
        else exists blob : bytes, r = Returns (Some blob, s, None)
    end.
Proof.
  exact (Encrypt_outcomes (L := Toy.lib) ToyFacts.derive_length
           Toy.hello Toy.pass1 Toy.healthy).
Defined.

(** [EncryptFile] of "notes" into "out/". *)
Lemma EncryptFile_with_destination_does_nothing_witness :
  ToyFiles.dir <> [] /\
  read_result (fs ToyFiles.start) ([] ++ ToyFiles.input)
    = (Some (list_byte_of_string "Hello World"), None) /\
  EncryptFile (L := Toy.lib) ToyFiles.input [] ToyFiles.dir Toy.pass1 ToyFiles.start
    = (Returns None, ToyFiles.start).
Proof.
  assert (Hto : ToyFiles.dir <> []) by (vm_compute; discriminate).
  assert (Hread : read_result (fs ToyFiles.start) ([] ++ ToyFiles.input)
                  = (Some (list_byte_of_string "Hello World"), None))
    by (vm_compute; reflexivity).
  split; [exact Hto|]. split; [exact Hread|].
  exact (EncryptFile_with_destination_does_nothing (L := Toy.lib)
           ToyFiles.input [] ToyFiles.dir Toy.pass1 ToyFiles.start _ Hto Hread).
Defined.

(** [DecryptFile] of "notes" with no "notes.3dfx" on the disk and no
    destination directory: the plain file "notes" itself is emptied. *)
Lemma DecryptFile_failure_empties_destination_witness :
  read_result (fs ToyFiles.start) ToyFiles.input
    = (Some (list_byte_of_string "Hello World"), None) /\
  exists (s' : Sys (L := Toy.lib)),
    DecryptFile (L := Toy.lib) ToyFiles.input [] [] Toy.pass1 ToyFiles.start
      = (Panics PanicSliceBounds, s') /\
    read_result (fs s') ToyFiles.input = (Some [], None).
Proof.
  split; [vm_compute; reflexivity|].
  eexists.
  refine ((fun H => conj H
            (DecryptFile_failure_empties_destination (L := Toy.lib)
               ToyFiles.input [] [] Toy.pass1 ToyFiles.start _ _ eq_refl H _)) _ ).
  - discriminate.
  - vm_compute. reflexivity.
Defined.

Lemma file_functions_close_what_they_open_witness :
  exists r (s' : Sys (L := Toy.lib)),
    EncryptFile (L := Toy.lib) ToyFiles.input [] [] Toy.pass1 ToyFiles.start = (r, s') /\
    open_files (fs s') = open_files (fs ToyFiles.start).
Proof.
  do 2 eexists.
  refine ((fun H => conj H
            (proj1 (proj2 (proj2 (file_functions_close_what_they_open (L := Toy.lib))))
               ToyFiles.input [] [] Toy.pass1 ToyFiles.start _ _ H)) _).
  vm_compute. reflexivity.
Defined.


(** A disk that stores five bytes of the blob and fails: the salt comes
    back with no error. *)
Lemma EncryptToFile_hides_failed_write_witness :
  write_fault (fs ToyFiles.start_full) ToyFiles.dir
    = Some (5%nat, PathError "write" ToyFiles.input "no space left on device") /\
  exists (blob : slice) (s' : Sys (L := Toy.lib)),
    EncryptToFile (L := Toy.lib) ToyFiles.dir [] Toy.hello Toy.pass1 ToyFiles.start_full
      = (Returns (Some Toy.salt16, None), s') /\
    read_result (fs s') ToyFiles.dir = (Some (firstn 5 (elems blob)), None) /\
    len blob = 39%nat.
Proof.
  assert (Hw : write_fault (fs ToyFiles.start_full) ToyFiles.dir
               = Some (5%nat, PathError "write" ToyFiles.input "no space left on device"))
    by (vm_compute; reflexivity).
  split; [exact Hw|].
  assert (He : exists blob w1,
             Encrypt (L := Toy.lib) Toy.hello Toy.pass1
                     (mkWorld (L := Toy.lib) (rng ToyFiles.start_full) [])
             = (Returns (blob, Some Toy.salt16, None), w1) /\ len blob = 39%nat).
  { do 2 eexists. split; vm_compute; reflexivity. }
  destruct He as (blob & w1 & He & Hlen).
  destruct (EncryptToFile_hides_failed_write (L := Toy.lib)
              ToyFiles.dir [] Toy.hello Toy.pass1 ToyFiles.start_full
              blob (Some Toy.salt16) w1 5%nat _ eq_refl Hw He) as (s' & Hr & Hf).
  exists blob, s'. split; [exact Hr|]. split; [exact Hf|exact Hlen].
Defined.

(** Libraries whose derivation fails: "notes" held "Hello World" and is
    left empty. *)
Lemma EncryptToFile_failure_leaves_empty_file_witness :
  read_result (fs ToyFiles.start_rejecting) ToyFiles.input
    = (Some (list_byte_of_string "Hello World"), None) /\
  exists (e : ioerror) (s' : Sys (L := ToyFiles.rejecting_lib)),
    EncryptToFile (L := ToyFiles.rejecting_lib) ToyFiles.input [] Toy.hello Toy.pass1
                  ToyFiles.start_rejecting
      = (Returns (nil_slice, Some e), s') /\
    read_result (fs s') ToyFiles.input = (Some [], None).
Proof.
  split; [vm_compute; reflexivity|].
  do 2 eexists.
  refine ((fun H => conj H
            (EncryptToFile_failure_leaves_empty_file (L := ToyFiles.rejecting_lib)
               ToyFiles.input [] Toy.hello Toy.pass1 ToyFiles.start_rejecting
               _ _ eq_refl H (fun salt E => _))) _).
  - discriminate E.
  - vm_compute. reflexivity.
Defined.

(** [DecryptFromFile] of "out/", which is not on the disk. *)
Lemma DecryptFromFile_unusable_file_panics_witness :
  read_result (fs ToyFiles.start) ToyFiles.dir
    = (nil_slice, Some (PathError "open" ToyFiles.dir "no such file or directory")) /\
  exists s' : Sys (L := Toy.lib),
    DecryptFromFile (L := Toy.lib) ToyFiles.dir (Some Toy.salt16) Toy.pass1 ToyFiles.start
      = (Panics PanicSliceBounds, s') /\
    fs s' = fs ToyFiles.start /\
    In ("Decrypt from File - Read File Error:"%string,
        PathError "open" ToyFiles.dir "no such file or directory") (slog s').
Proof.
  assert (Hread : read_result (fs ToyFiles.start) ToyFiles.dir
                  = (nil_slice,
                     Some (PathError "open" ToyFiles.dir "no such file or directory")))
    by (vm_compute; reflexivity).
  split; [exact Hread|].
  assert (Hshort : (len nil_slice < 12)%nat) by (vm_compute; lia).
  destruct (DecryptFromFile_unusable_file_panics (L := Toy.lib) ToyFacts.derive_length
              ToyFiles.dir (Some Toy.salt16) Toy.pass1 ToyFiles.start
              nil_slice _ (Some Toy.salt16)
              (elems (fst (Toy.derive some_password Toy.salt16 32768 8 1 32)))
              (mkWorld (L := Toy.lib) (rng ToyFiles.start) [])
              Hread Hshort eq_refl) as (s' & Hr & Hfs & Hlog).
  exists s'. split; [exact Hr|]. split; [exact Hfs|]. exact (Hlog _ eq_refl).
Defined.

(** "Hello World" sealed into "out/" under "pass1" and read back under
    "pass2". *)
Lemma DecryptFromFile_EncryptToFile_roundtrip_witness :
  exists (s1 : Sys (L := Toy.lib)) (pt : slice),
    EncryptToFile (L := Toy.lib) ToyFiles.dir [] Toy.hello Toy.pass1 ToyFiles.start
      = (Returns (Some Toy.salt16, None), s1) /\
    DecryptFromFile (L := Toy.lib) ToyFiles.dir (Some Toy.salt16) Toy.pass2 s1
      = (Returns (pt, None), s1) /\
    elems pt = elems Toy.hello.
Proof.
  assert (He : exists s1,
             EncryptToFile (L := Toy.lib) ToyFiles.dir [] Toy.hello Toy.pass1 ToyFiles.start
             = (Returns (Some Toy.salt16, None), s1))
    by (eexists; vm_compute; reflexivity).
  destruct He as (s1 & He).
  destruct (DecryptFromFile_EncryptToFile_roundtrip (L := Toy.lib)
              ToyFacts.derive_length ToyFacts.counterCrypt_length
              ToyFacts.counterCrypt_involutive ToyFacts.auth_length
              ToyFiles.dir [] Toy.hello Toy.pass1 Toy.pass2 ToyFiles.start s1 s1
              Toy.salt16 eq_refl He eq_refl) as (pt & Hd & Hpt).
  exists s1, pt. split; [exact He|]. split; [exact Hd|exact Hpt].
Defined.

(** "notes" encrypted beside itself while the entropy source is exhausted,
    and decrypted into "out/notes" under another passphrase. *)
Lemma DecryptFile_EncryptFile_roundtrip_witness :
  exists (s1 s3 : Sys (L := Toy.lib)),
    EncryptFile (L := Toy.lib) ToyFiles.input [] [] Toy.pass1 ToyFiles.start_dry
      = (Returns None, s1) /\
    DecryptFile (L := Toy.lib) ToyFiles.input [] ToyFiles.dir Toy.pass2 s1
      = (Returns None, s3) /\
    read_result (fs s3) (ToyFiles.dir ++ ToyFiles.input)
      = (Some (list_byte_of_string "Hello World"), None).
Proof.
  assert (He : exists s1,
             EncryptFile (L := Toy.lib) ToyFiles.input [] [] Toy.pass1 ToyFiles.start_dry
             = (Returns None, s1))
    by (eexists; vm_compute; reflexivity).
  destruct He as (s1 & He).
  assert (Hc : create_fault (fs s1) (ToyFiles.dir ++ ToyFiles.input) = None).
  { pose proof He as He'. vm_compute in He'. injection He' as <-. reflexivity. }
  assert (Hw : write_fault (fs s1) (ToyFiles.dir ++ ToyFiles.input) = None).
  { pose proof He as He'. vm_compute in He'. injection He' as <-. reflexivity. }
  destruct (DecryptFile_EncryptFile_roundtrip (L := Toy.lib)
              ToyFacts.derive_length ToyFacts.counterCrypt_length
              ToyFacts.counterCrypt_involutive ToyFacts.auth_length
              ToyFiles.input [] ToyFiles.dir Toy.pass1 Toy.pass2
              ToyFiles.start_dry s1 s1 (Some (list_byte_of_string "Hello World"))
              eq_refl eq_refl eq_refl He eq_refl eq_refl Hc Hw) as (s3 & Hd & Hf).
  exists s1, s3. split; [exact He|]. split; [exact Hd|exact Hf].
Defined.
